(** * PopupView: lifecycle, sizing and positioning of an extension popup

    A shallow embedding of
    [packages/electron-chrome-extensions/src/browser/popup.ts] (the variant
    that checks for content after the load, called variant A below) and of
    its sibling that sizes the popup from the 'dom-ready' signal (variant B).

    - JavaScript numbers are extended rationals: a finite double is the
      rational it denotes, with [Infinity], [-Infinity] and [NaN] beside
      them.  [Math.floor], [Math.max], [Math.min] and the comparisons are
      exact on doubles; [+] rounds its exact result to binary64, to the
      nearest double with ties to even, as IEEE 754 has it.  The sign of
      zero is not kept: nothing here divides.
    - Electron's windows live in a store indexed by object identity; the
      fields of [PopupView] hold references into it, so that a reference
      captured by an asynchronous function ([const win = ...]) still names
      the same window after [this.browserWindow] was cleared.
    - Methods are computations in a state-and-exception monad [M]; a native
      method of a destroyed window throws, as Electron does.
    - An [async] function is a task: a value that names the [await] it is
      suspended at; the event loop resumes it with the settled value.  An
      [await] of an [async] function that returns without suspending is
      taken in the same turn: no event comes between two microtasks.
    - Variant A's 'new-window' handler hands the URL to the extension store,
      which is not part of these sources: the requests made to the store are
      recorded beside the popup ([Hosted], [page_step]).
    - Left out: the [debug] and [console.error] output. *)

From Stdlib Require Import QArith Qround Qabs Qpower Qreduction ZArith Lia String Bool.
From stdpp Require Import base option list.

(** ** JavaScript numbers *)

Inductive number : Type :=
  | Fin (q : Q)
  | PosInfinity
  | NegInfinity
  | NaN.

Definition num (z : Z) : number := Fin (inject_Z z).

(** [Math.floor] *)
Definition Math_floor (n : number) : number :=
  match n with
  | Fin q => num (Qfloor q)
  | _ => n
  end.

(** [Math.max(a, b)] *)
Definition Math_max (a b : number) : number :=
  match a, b with
  | NaN, _ | _, NaN => NaN
  | PosInfinity, _ | _, PosInfinity => PosInfinity
  | NegInfinity, o | o, NegInfinity => o
  | Fin p, Fin q => if Qle_bool p q then Fin q else Fin p
  end.

(** [Math.min(a, b)] *)
Definition Math_min (a b : number) : number :=
  match a, b with
  | NaN, _ | _, NaN => NaN
  | NegInfinity, _ | _, NegInfinity => NegInfinity
  | PosInfinity, o | o, PosInfinity => o
  | Fin p, Fin q => if Qle_bool p q then Fin p else Fin q
  end.

(** *** Rounding to binary64 *)

(** [2^e], for any integer [e]. *)
Definition pow2 (e : Z) : Q := Qpower 2%Q e.

(** The binade of [q <> 0]: the [e] with [2^e <= |q| < 2^(e+1)]. *)
Definition ilog2 (q : Q) : Z :=
  let e := (Z.log2 (Z.abs (Qnum q)) - Z.log2 (Zpos (Qden q)))%Z in
  if Qle_bool (pow2 e) (Qabs q) then e else (e - 1)%Z.

(** The nearest integer, the even one of two that are equally near. *)
Definition nearest_even (q : Q) : Z :=
  let f := Qfloor q in
  match Qcompare (q - inject_Z f)%Q (1 # 2)%Q with
  | Lt => f
  | Gt => (f + 1)%Z
  | Eq => if Z.even f then f else (f + 1)%Z
  end.

(** The double nearest to the real [q]: 53 bits of precision, the least
    exponent that of the subnormals, and an infinity from [2^1024] on (that
    is, for [|q| >= 2^1024 - 2^970], which rounds up to it). *)
Definition binary64 (q : Q) : number :=
  if Qeq_bool q 0 then Fin 0%Q else
  let e := Z.max (ilog2 q - 52) (-1074) in
  let r := Qred (inject_Z (nearest_even (q / pow2 e)%Q) * pow2 e)%Q in
  if Qle_bool (pow2 1024) (Qabs r) then
    if Qle_bool 0%Q r then PosInfinity else NegInfinity
  else Fin r.

(** [a + b]: the exact sum, rounded. *)
Definition plus (a b : number) : number :=
  match a, b with
  | NaN, _ | _, NaN => NaN
  | PosInfinity, NegInfinity | NegInfinity, PosInfinity => NaN
  | PosInfinity, _ | _, PosInfinity => PosInfinity
  | NegInfinity, _ | _, NegInfinity => NegInfinity
  | Fin p, Fin q => binary64 (p + q)%Q
  end.

(** [v || 0] for a property that may be missing: [undefined], [0] and [NaN]
    are falsy. *)
Definition or_zero (v : option number) : number :=
  match v with
  | None => num 0
  | Some NaN => num 0
  | Some (Fin q) => if Qeq_bool q 0 then num 0 else Fin q
  | Some n => n
  end.

(** ** Rectangles *)

(** [Electron.Rectangle] *)
Record Rectangle : Type := mkRectangle {
  x : number;
  y : number;
  width : number;
  height : number;
}.

(** [Partial<Electron.Rectangle>]; an [Electron.Size] is the case with
    [width] and [height] present. *)
Record PartialRectangle : Type := mkPartial {
  x_opt : option number;
  y_opt : option number;
  width_opt : option number;
  height_opt : option number;
}.

Definition Size (w h : number) : PartialRectangle :=
  {| x_opt := None; y_opt := None; width_opt := Some w; height_opt := Some h |}.

(** [PopupAnchorRect] has the same four fields as a rectangle. *)
Definition PopupAnchorRect : Type := Rectangle.

(** [{ ...r, width, height }] *)
Definition with_size (r : Rectangle) (w h : number) : Rectangle :=
  {| x := x r; y := y r; width := w; height := h |}.

(** [{ ...r, x, y }] *)
Definition with_origin (r : Rectangle) (x' y' : number) : Rectangle :=
  {| x := x'; y := y'; width := width r; height := height r |}.

(** [PopupView.BOUNDS] *)
Record Bounds : Type := mkBounds {
  minWidth : number;
  minHeight : number;
  maxWidth : number;
  maxHeight : number;
}.

Definition BOUNDS : Bounds :=
  {| minWidth := num 25; minHeight := num 25;
     maxWidth := num 800; maxHeight := num 600 |}.

(** ** Electron's side: windows, focus and the calls made on them *)

Definition WinId := nat.

(** What the model keeps of an Electron [BrowserWindow].  The window and its
    [webContents] are destroyed together.  [closedListeners] counts the
    registrations of [this.destroy] for the window's 'closed' event. *)
Record BrowserWindow : Type := mkWindow {
  win_destroyed : bool;
  win_bounds : Rectangle;
  win_visible : bool;
  win_devTools : bool;
  closedListeners : nat;
}.

Inductive Script : Type :=
  | HasChildNodes        (* document.body.hasChildNodes() *)
  | MeasureContent.      (* the content box, by either measurement strategy *)

(** The calls on Electron objects that change something or start something;
    reads ([getBounds], [isDestroyed], [isDevToolsOpened]) are not logged. *)
Inductive Call : Type :=
  | CallSetBounds (w : WinId) (r : Rectangle)
  | CallShow (w : WinId)
  | CallOffClosed (w : WinId)
  | CallCloseDevTools (w : WinId)
  | CallDestroy (w : WinId)
  | CallLoadURL (w : WinId) (url : string)
  | CallExecuteJavaScript (w : WinId) (src : Script).

(** ** The instance *)

Record PopupView : Type := mkPopupView {
  browserWindow : option WinId;
  parent : option WinId;
  anchorWindow : option WinId;
  anchorWindowBounds : option Rectangle;
  extensionId : string;
  anchorRect : PopupAnchorRect;
  destroyed : bool;
  usingPreferredSize : bool;
}.

Record State : Type := mkState {
  this : PopupView;
  windows : list BrowserWindow;
  focusedWindow : option WinId;     (* BrowserWindow.getFocusedWindow() *)
  calls : list Call;                (* oldest first *)
}.

Definition set_browserWindow (v : option WinId) (p : PopupView) : PopupView :=
  mkPopupView v (parent p) (anchorWindow p) (anchorWindowBounds p)
    (extensionId p) (anchorRect p) (destroyed p) (usingPreferredSize p).

Definition set_parent (v : option WinId) (p : PopupView) : PopupView :=
  mkPopupView (browserWindow p) v (anchorWindow p) (anchorWindowBounds p)
    (extensionId p) (anchorRect p) (destroyed p) (usingPreferredSize p).

Definition set_anchorWindowBounds (v : option Rectangle) (p : PopupView) : PopupView :=
  mkPopupView (browserWindow p) (parent p) (anchorWindow p) v
    (extensionId p) (anchorRect p) (destroyed p) (usingPreferredSize p).

Definition set_destroyed (v : bool) (p : PopupView) : PopupView :=
  mkPopupView (browserWindow p) (parent p) (anchorWindow p) (anchorWindowBounds p)
    (extensionId p) (anchorRect p) v (usingPreferredSize p).

Definition set_usingPreferredSize (v : bool) (p : PopupView) : PopupView :=
  mkPopupView (browserWindow p) (parent p) (anchorWindow p) (anchorWindowBounds p)
    (extensionId p) (anchorRect p) (destroyed p) v.

Definition set_this (f : PopupView -> PopupView) (s : State) : State :=
  mkState (f (this s)) (windows s) (focusedWindow s) (calls s).

Definition set_windows (ws : list BrowserWindow) (s : State) : State :=
  mkState (this s) ws (focusedWindow s) (calls s).

Definition set_focusedWindow (f : option WinId) (s : State) : State :=
  mkState (this s) (windows s) f (calls s).

Definition add_call (c : Call) (s : State) : State :=
  mkState (this s) (windows s) (focusedWindow s) (calls s ++ [c]).

(** ** The monad of methods: state and exceptions *)

Inductive Exception : Type :=
  | ObjectDestroyed          (* TypeError: Object has been destroyed *)
  | UndefinedReceiver        (* TypeError: cannot read properties of undefined *)
  | PromiseRejected.         (* an awaited promise was rejected *)

Inductive outcome (A : Type) : Type :=
  | Return (a : A)
  | Throw (e : Exception).
Arguments Return {A} a.
Arguments Throw {A} e.

Definition M (A : Type) : Type := State -> outcome A * State.

Definition ret {A} (a : A) : M A := fun s => (Return a, s).

Definition bind {A B} (m : M A) (f : A -> M B) : M B := fun s =>
  match m s with
  | (Return a, s') => f a s'
  | (Throw e, s') => (Throw e, s')
  end.

Declare Scope M_scope.
Delimit Scope M_scope with M.
Bind Scope M_scope with M.
Notation "x ← y ; z" := (bind y (fun x => z))
  (at level 20, y at level 100, z at level 200, only parsing) : M_scope.
Notation "x ;; z" := (bind x (fun _ => z))
  (at level 100, z at level 200, only parsing, right associativity) : M_scope.
Local Open Scope M_scope.

Definition throw {A} (e : Exception) : M A := fun s => (Throw e, s).
Definition get {A} (f : PopupView -> A) : M A := fun s => (Return (f (this s)), s).
Definition assign (f : PopupView -> PopupView) : M unit :=
  fun s => (Return tt, set_this f s).
Definition log (c : Call) : M unit := fun s => (Return tt, add_call c s).
Definition skip : M unit := ret tt.

(** The state a computation leaves, whether it returned or threw. *)
Definition exec {A} (m : M A) (s : State) : State := snd (m s).

(** *** Electron's methods *)

Definition object (w : WinId) : M (option BrowserWindow) :=
  fun s => (Return (windows s !! w), s).

(** [w.isDestroyed()] never throws. *)
Definition isDestroyed (w : WinId) : M bool := fun s =>
  match windows s !! w with
  | Some win => (Return (win_destroyed win), s)
  | None => (Return true, s)
  end.

(** The receiver of a native method: the live window, or the exception
    Electron throws on a destroyed object. *)
Definition native (w : WinId) : M BrowserWindow := fun s =>
  match windows s !! w with
  | Some win => if win_destroyed win then (Throw ObjectDestroyed, s)
                else (Return win, s)
  | None => (Throw ObjectDestroyed, s)
  end.

Definition store (w : WinId) (win : BrowserWindow) : M unit :=
  fun s => (Return tt, set_windows (<[w := win]> (windows s)) s).

Definition getBounds (w : WinId) : M Rectangle :=
  win ← native w; ret (win_bounds win).

Definition setBounds (w : WinId) (r : Rectangle) : M unit :=
  log (CallSetBounds w r);;
  win ← native w;
  store w (mkWindow false r (win_visible win) (win_devTools win) (closedListeners win)).

Definition show (w : WinId) : M unit :=
  log (CallShow w);;
  win ← native w;
  store w (mkWindow false (win_bounds win) true (win_devTools win) (closedListeners win)).

Definition isDevToolsOpened (w : WinId) : M bool :=
  win ← native w; ret (win_devTools win).

Definition closeDevTools (w : WinId) : M unit :=
  log (CallCloseDevTools w);;
  win ← native w;
  store w (mkWindow false (win_bounds win) (win_visible win) false (closedListeners win)).

(** [w.off('closed', this.destroy)]: an [EventEmitter] method, it removes one
    registration if there is one. *)
Definition off_closed (w : WinId) : M unit :=
  log (CallOffClosed w);;
  o ← object w;
  match o with
  | Some win =>
      store w (mkWindow (win_destroyed win) (win_bounds win) (win_visible win)
                 (win_devTools win) (Nat.pred (closedListeners win)))
  | None => skip
  end.

(** [w.destroy()]: the window is gone, with its devtools.  The 'closed' event
    it emits reaches no handler of the instance: [destroy] has just
    unsubscribed. *)
Definition destroy_window (w : WinId) : M unit :=
  log (CallDestroy w);;
  win ← native w;
  store w (mkWindow true (win_bounds win) false false (closedListeners win)).

(** [BrowserWindow.getFocusedWindow()] *)
Definition getFocusedWindow : M (option WinId) :=
  fun s => (Return (focusedWindow s), s).

(** ** The synchronous methods of [PopupView] *)

Definition destroy : M unit :=
  d ← get destroyed;
  if d then skip else
  assign (set_destroyed true);;
  p ← get parent;
  match p with
  | Some pw =>
      pd ← isDestroyed pw;
      (if negb pd then off_closed pw else skip);;
      assign (set_parent None)
  | None => skip
  end;;
  b ← get browserWindow;
  match b with
  | Some bw =>
      bd ← isDestroyed bw;
      (if negb bd then
         (* webContents.isDestroyed() is false on a live window *)
         open ← isDevToolsOpened bw;
         (if open then closeDevTools bw else skip);;
         off_closed bw;;
         destroy_window bw
       else skip);;
      assign (set_browserWindow None)
  | None => skip
  end.

Definition setSize (rect : PartialRectangle) : M unit :=
  b ← get browserWindow;
  p ← get parent;
  match b, p with
  | Some bw, Some _ =>
      let width := Math_floor
        (Math_min (maxWidth BOUNDS) (Math_max (or_zero (width_opt rect)) (minWidth BOUNDS))) in
      let height := Math_floor
        (Math_min (maxHeight BOUNDS) (Math_max (or_zero (height_opt rect)) (minHeight BOUNDS))) in
      cur ← getBounds bw;
      setBounds bw (with_size cur width height)
  | _, _ => skip
  end.

Definition maybeClose : M unit :=
  b ← get browserWindow;
  inspected ←
    match b with
    | Some bw =>
        bd ← isDestroyed bw;
        if negb bd then isDevToolsOpened bw else ret false
    | None => ret false
    end;
  if (inspected : bool) then skip else
  f ← getFocusedWindow;
  match f with
  | None => skip
  | Some _ => destroy
  end.

Definition updatePosition : M unit :=
  b ← get browserWindow;
  a ← get anchorWindowBounds;
  match b, a with
  | Some bw, Some ab =>
      _viewBounds ← getBounds bw;
      r ← get anchorRect;
      let x0 := plus (x ab) (x r) in
      let y0 := plus (y ab) (y r) in
      let x1 := Math_floor x0 in
      let y1 := Math_floor y0 in
      cur ← getBounds bw;
      setBounds bw (with_origin cur x1 y1)
  | _, _ => skip
  end.

Definition updatePreferredSize (size : PartialRectangle) : M unit :=
  assign (set_usingPreferredSize true);;
  setSize size;;
  updatePosition.

(** ** The asynchronous methods *)

(** What a promise settles with.  A script evaluated in the page gives back
    [undefined], a boolean or an object with (possibly missing) [width] and
    [height]. *)
Inductive Value : Type :=
  | VUndefined
  | VBool (b : bool)
  | VObject (r : PartialRectangle).

Inductive Settled : Type :=
  | Fulfilled (v : Value)
  | Rejected.

Definition truthy (v : Value) : bool :=
  match v with
  | VUndefined => false
  | VBool b => b
  | VObject _ => true
  end.

(** [v.width], [v.height] *)
Definition prop (f : PartialRectangle -> option number) (v : Value) : M (option number) :=
  match v with
  | VUndefined => throw UndefinedReceiver
  | VBool _ => ret None
  | VObject r => ret (f r)
  end.

(** The value of [await p] once [p] has settled. *)
Definition awaited (v : Settled) : M Value :=
  match v with
  | Fulfilled a => ret a
  | Rejected => throw PromiseRejected
  end.

(** [w.webContents.loadURL(url)] and [w.webContents.executeJavaScript(src)]
    up to the promise they return. *)
Definition loadURL (w : WinId) (url : string) : M unit :=
  log (CallLoadURL w url);;
  _ ← native w;
  skip.

Definition executeJavaScript (w : WinId) (src : Script) : M unit :=
  log (CallExecuteJavaScript w src);;
  _ ← native w;
  skip.

(** [this.browserWindow!]: the assertion is erased, a missing window shows
    when a property of it is read. *)
Definition defined (w : option WinId) : M WinId :=
  match w with
  | Some v => ret v
  | None => throw UndefinedReceiver
  end.

(** A suspended [async] function, named by the [await] it waits at, with the
    locals it still needs. *)
Inductive Task : Type :=
  | LoadA_loadURL (win : WinId)
  | LoadA_hasChildNodes (win : WinId)
  | LoadA_timeout (win : WinId)
  | LoadA_query (win : WinId)
  | LoadB_loadURL (win : WinId)
  | DomReady_timeout (win : option WinId)
  | DomReady_query (win : option WinId).

(** [queryPreferredSize] up to its [await]: [true] when it is suspended at
    the script evaluation, [false] when it returned at its guard. *)
Definition queryPreferredSize_start : M bool :=
  u ← get usingPreferredSize;
  d ← get destroyed;
  if u || d then ret false else
  b ← get browserWindow;
  bw ← defined b;
  executeJavaScript bw MeasureContent;;
  ret true.

(** [queryPreferredSize] from the settled evaluation on. *)
Definition queryPreferredSize_resume (v : Settled) : M unit :=
  rect ← awaited v;
  d ← get destroyed;
  if d then skip else
  w ← prop width_opt rect;
  h ← prop height_opt rect;
  setSize {| x_opt := None; y_opt := None; width_opt := w; height_opt := h |};;
  updatePosition.

Definition minimum : PartialRectangle := Size (minWidth BOUNDS) (minHeight BOUNDS).

(** *** Variant A: [load] checks for content, then sizes and shows *)

Definition loadA_start (url : string) : M (option Task) :=
  b ← get browserWindow;
  win ← defined b;
  loadURL win url;;
  ret (Some (LoadA_loadURL win)).

(** After [await this.queryPreferredSize()]. *)
Definition loadA_after_query (win : WinId) : M (option Task) :=
  d ← get destroyed;
  if d then ret None else
  show win;;
  ret None.

Definition loadA_resume (t : Task) (v : Settled) : M (option Task) :=
  match t with
  | LoadA_loadURL win =>
      (* a rejection is caught and logged *)
      d ← get destroyed;
      if d then ret None else
      b ← get browserWindow;
      bw ← defined b;
      executeJavaScript bw HasChildNodes;;
      ret (Some (LoadA_hasChildNodes win))
  | LoadA_hasChildNodes win =>
      hasChildNodes ← awaited v;
      if negb (truthy hasChildNodes) then
        destroy;;
        ret None
      else
      u ← get usingPreferredSize;
      if negb u then
        setSize minimum;;
        ret (Some (LoadA_timeout win))
      else
        show win;;
        ret None
  | LoadA_timeout win =>
      _ ← awaited v;
      d ← get destroyed;
      if d then ret None else
      suspended ← queryPreferredSize_start;
      if (suspended : bool) then ret (Some (LoadA_query win))
      else loadA_after_query win
  | LoadA_query win =>
      queryPreferredSize_resume v;;
      loadA_after_query win
  | _ => ret None
  end.

(** *** Variant B: [load] only loads, [domReady] sizes and shows *)

Definition loadB_start (url : string) : M (option Task) :=
  b ← get browserWindow;
  win ← defined b;
  loadURL win url;;
  ret (Some (LoadB_loadURL win)).

Definition domReady_show (win : option WinId) : M (option Task) :=
  w ← defined win;
  show w;;
  ret None.

Definition domReady_start : M (option Task) :=
  win ← get browserWindow;
  u ← get usingPreferredSize;
  if negb u then
    setSize minimum;;
    ret (Some (DomReady_timeout win))
  else domReady_show win.

Definition domReady_resume (t : Task) (v : Settled) : M (option Task) :=
  match t with
  | LoadB_loadURL win => ret None
  | DomReady_timeout win =>
      _ ← awaited v;
      suspended ← queryPreferredSize_start;
      if (suspended : bool) then ret (Some (DomReady_query win))
      else domReady_show win
  | DomReady_query win =>
      queryPreferredSize_resume v;;
      domReady_show win
  | _ => ret None
  end.

Definition resume (t : Task) (v : Settled) : M (option Task) :=
  match t with
  | LoadA_loadURL _ | LoadA_hasChildNodes _ | LoadA_timeout _ | LoadA_query _ =>
      loadA_resume t v
  | LoadB_loadURL _ | DomReady_timeout _ | DomReady_query _ =>
      domReady_resume t v
  end.

(** ** Construction *)

Record PopupViewOptions : Type := mkOptions {
  opt_extensionId : string;
  opt_parent : option WinId;
  opt_anchorWindow : option WinId;
  opt_url : string;
  opt_anchorRect : PopupAnchorRect;
}.

Inductive Variant : Type := VariantA | VariantB.

(** [new BrowserWindow({ show: false, ... })]: a fresh object, hidden, with
    the bounds Electron gives it. *)
Definition new_BrowserWindow (initial : Rectangle) : M WinId := fun s =>
  (Return (length (windows s)),
   set_windows (windows s ++ [mkWindow false initial false false 0]) s).

(** [w.on('closed', this.destroy)] and [w.once('closed', this.destroy)]: one
    more registration; what [once] adds is seen when the event is emitted. *)
Definition on_closed (w : WinId) : M unit :=
  o ← object w;
  match o with
  | Some win =>
      store w (mkWindow (win_destroyed win) (win_bounds win) (win_visible win)
                 (win_devTools win) (S (closedListeners win)))
  | None => skip
  end.

(** The constructor, up to the first [await] of [load].  The handlers it
    registers on the popup's window and web contents ('preferred-size-changed',
    'devtools-closed', 'blur' and, in variant B, 'dom-ready') are dispatched
    by [step] below; variant A's handler of 'new-window', which only calls
    the extension store, by [page_step]. *)
Definition constructor (v : Variant) (opts : PopupViewOptions) (initial : Rectangle)
  : M (option Task) :=
  assign (fun _ => mkPopupView None (opt_parent opts) (opt_anchorWindow opts) None
                     (opt_extensionId opts) (opt_anchorRect opts) false false);;
  a ← get anchorWindow;
  p ← get parent;
  snapshot ←
    match a with
    | Some aw => r ← getBounds aw; ret (Some r)
    | None =>
        match p with
        | Some pw => r ← getBounds pw; ret (Some r)
        | None => ret None
        end
    end;
  assign (set_anchorWindowBounds snapshot);;
  bw ← new_BrowserWindow initial;
  assign (set_browserWindow (Some bw));;
  on_closed bw;;
  p ← get parent;
  pw ← defined p;
  on_closed pw;;
  match v with
  | VariantA => loadA_start (opt_url opts)
  | VariantB => loadB_start (opt_url opts)
  end.

(** ** The event loop *)

(** One popup in its surroundings: the instance and Electron's state, the
    identities of the window it created and of its parent, and its suspended
    asynchronous functions ([None] once finished). *)
Record System : Type := mkSystem {
  variant : Variant;
  popup : WinId;
  owner : WinId;
  state : State;
  tasks : list (option Task);
}.

Definition with_state (s : State) (sys : System) : System :=
  mkSystem (variant sys) (popup sys) (owner sys) s (tasks sys).

Definition with_tasks (ts : list (option Task)) (sys : System) : System :=
  mkSystem (variant sys) (popup sys) (owner sys) (state sys) ts.

(** [new PopupView(opts)]; [None] when the constructor throws. *)
Definition new_PopupView (v : Variant) (opts : PopupViewOptions) (initial : Rectangle)
    (s0 : State) : option System :=
  match constructor v opts initial s0 with
  | (Return t, s) =>
      match browserWindow (this s), parent (this s) with
      | Some bw, Some pw => Some (mkSystem v bw pw s [t])
      | _, _ => None
      end
  | (Throw _, _) => None
  end.

(** What can happen between two turns of the event loop. *)
Inductive Event : Type :=
  | Settle (i : nat) (v : Settled)          (* the promise task [i] awaits settles *)
  | PreferredSizeChanged (w h : number)     (* 'preferred-size-changed' *)
  | DomReady                                (* 'dom-ready' *)
  | DevToolsOpened                          (* the user opens the popup's devtools *)
  | DevToolsClosed                          (* 'devtools-closed' *)
  | Blur                                    (* 'blur' of the popup's window *)
  | Focus (f : option WinId)                (* the focus moves, maybe out of the app *)
  | Closed                                  (* the popup's window is closed from outside *)
  | ParentClosed                            (* the parent window is closed *)
  | Moved (w : WinId) (r : Rectangle)       (* another window is moved or resized *)
  | Destroy.                                (* the owner calls [destroy()] *)

(** An uncaught exception of a handler ends the handler; the state it
    reached stays. *)
Definition handle (m : M unit) (sys : System) : System :=
  with_state (exec m (state sys)) sys.

(** A window is closed from outside: it is destroyed, then 'closed' is
    emitted to the registered [this.destroy]. *)
Definition close_window (w : WinId) (once : bool) (s : State) : State :=
  match windows s !! w with
  | Some win =>
      if win_destroyed win then s else
      let n := closedListeners win in
      let gone := mkWindow true (win_bounds win) false false (if once then O else n) in
      Nat.iter n (exec destroy) (set_windows (<[w := gone]> (windows s)) s)
  | None => s
  end.

Definition set_devTools (w : WinId) (open : bool) (s : State) : State :=
  match windows s !! w with
  | Some win =>
      if win_destroyed win then s else
      set_windows (<[w := mkWindow false (win_bounds win) (win_visible win) open
                             (closedListeners win)]> (windows s)) s
  | None => s
  end.

Definition move_window (w : WinId) (r : Rectangle) (s : State) : State :=
  match windows s !! w with
  | Some win =>
      if win_destroyed win then s else
      set_windows (<[w := mkWindow false r (win_visible win) (win_devTools win)
                             (closedListeners win)]> (windows s)) s
  | None => s
  end.

Definition finished (o : outcome (option Task)) : option Task :=
  match o with
  | Return t => t
  | Throw _ => None
  end.

Definition step (e : Event) (sys : System) : System :=
  match e with
  | Settle i v =>
      match tasks sys !! i with
      | Some (Some t) =>
          let r := resume t v (state sys) in
          with_tasks (<[i := finished (fst r)]> (tasks sys)) (with_state (snd r) sys)
      | _ => sys
      end
  | PreferredSizeChanged w h => handle (updatePreferredSize (Size w h)) sys
  | DomReady =>
      match variant sys with
      | VariantA => sys
      | VariantB =>
          let r := domReady_start (state sys) in
          with_tasks (tasks sys ++ [finished (fst r)]) (with_state (snd r) sys)
      end
  | DevToolsOpened => with_state (set_devTools (popup sys) true (state sys)) sys
  | DevToolsClosed =>
      handle maybeClose (with_state (set_devTools (popup sys) false (state sys)) sys)
  | Blur => handle maybeClose sys
  | Focus f => with_state (set_focusedWindow f (state sys)) sys
  | Closed => with_state (close_window (popup sys) false (state sys)) sys
  | ParentClosed => with_state (close_window (owner sys) true (state sys)) sys
  | Moved w r =>
      if decide (w = popup sys) then sys
      else with_state (move_window w r (state sys)) sys
  | Destroy => handle destroy sys
  end.

Definition run (evs : list Event) (sys : System) : System :=
  fold_left (fun acc e => step e acc) evs sys.

(** ** Vocabulary of the statements *)

(** The requested value brought into [lo, hi]: a value that is missing or
    not a number counts as 0, like the code's [|| 0]. *)
Definition clamped (lo hi : Z) (v : option number) : Q :=
  match v with
  | Some (Fin q) =>
      if Qlt_le_dec q (inject_Z lo) then inject_Z lo
      else if Qlt_le_dec (inject_Z hi) q then inject_Z hi
      else q
  | Some PosInfinity => inject_Z hi
  | _ => inject_Z lo
  end.

Definition applied_width (rect : PartialRectangle) : Z :=
  Qfloor (clamped 25 800 (width_opt rect)).

Definition applied_height (rect : PartialRectangle) : Z :=
  Qfloor (clamped 25 600 (height_opt rect)).

(** What Electron knows of window [w]. *)
Definition bounds_of (s : State) (w : WinId) : option Rectangle :=
  win_bounds <$> windows s !! w.

Definition visible_of (s : State) (w : WinId) : option bool :=
  win_visible <$> windows s !! w.

Definition gone (s : State) (w : WinId) : bool :=
  match windows s !! w with
  | Some win => win_destroyed win
  | None => true
  end.

Definition inspected (s : State) (w : WinId) : bool :=
  match windows s !! w with
  | Some win => win_devTools win
  | None => false
  end.

Definition live (s : State) (w : WinId) : Prop := gone s w = false.

(** The popup's devtools are open: it still has its window, and the window
    is being inspected. *)
Definition devToolsOpen (s : State) : bool :=
  match browserWindow (this s) with
  | Some bw => negb (gone s bw) && inspected s bw
  | None => false
  end.

(** The calls one effective [destroy()] makes, read off the state before it. *)
Definition destroy_calls (s : State) : list Call :=
  match parent (this s) with
  | Some pw => if gone s pw then [] else [CallOffClosed pw]
  | None => []
  end ++
  match browserWindow (this s) with
  | Some bw =>
      if gone s bw then []
      else (if inspected s bw then [CallCloseDevTools bw] else [])
             ++ [CallOffClosed bw; CallDestroy bw]
  | None => []
  end.

Definition count_call (c : Call -> bool) (l : list Call) : nat :=
  length (List.filter c l).

Definition is_off (w : WinId) (c : Call) : bool :=
  match c with
  | CallOffClosed v => Nat.eqb v w
  | _ => false
  end.

Definition is_destroy (w : WinId) (c : Call) : bool :=
  match c with
  | CallDestroy v => Nat.eqb v w
  | _ => false
  end.

Definition is_show (c : Call) : bool :=
  match c with
  | CallShow _ => true
  | _ => false
  end.

(** Once destroyed, the instance holds neither its window nor its parent. *)
Definition released (s : State) : Prop :=
  destroyed (this s) = true ->
  browserWindow (this s) = None /\ parent (this s) = None.

(** ** Vocabulary of the invariants *)

Definition preserves (R : State -> State -> Prop) {A} (m : M A) : Prop :=
  forall s, R s (snd (m s)).

(** A computation that only reads. *)
Definition reads {A} (m : M A) : Prop := forall s, snd (m s) = s.

(** The events that resume or start no task. *)
Definition plain (e : Event) : bool :=
  match e with
  | Settle _ _ | DomReady => false
  | _ => true
  end.

(** What no method and no event undoes. *)
Record keeps (s s' : State) : Prop := mkKeeps {
  keeps_anchorWindowBounds : anchorWindowBounds (this s') = anchorWindowBounds (this s);
  keeps_anchorRect : anchorRect (this s') = anchorRect (this s);
  keeps_latch : usingPreferredSize (this s) = true -> usingPreferredSize (this s') = true;
  keeps_destroyed : destroyed (this s) = true -> destroyed (this s') = true;
  keeps_released : released s -> released s';
}.

(** From [s] to [s'] no [show()] was called and no window became visible. *)
Definition quiet (s s' : State) : Prop :=
  (exists l, calls s' = calls s ++ l /\ Forall (fun c => is_show c = false) l) /\
  (forall w, visible_of s' w = Some true -> visible_of s w = Some true).

(** Variant A's [load] before its content check has passed. *)
Definition waiting (t : option Task) : bool :=
  match t with
  | Some (LoadA_loadURL _) | Some (LoadA_hasChildNodes _) => true
  | _ => false
  end.

(** What a resumed task leaves in its slot satisfies [P]. *)
Definition yields (P : option Task -> Prop) (m : M (option Task)) : Prop :=
  forall s, P (finished (fst (m s))).

(** The snapshot the constructor is to take: the anchor's bounds if there is
    an anchor, else the parent's if there is a parent, else none. *)
Definition snapshot_of (opts : PopupViewOptions) (s : State) : option Rectangle :=
  match opt_anchorWindow opts with
  | Some a => bounds_of s a
  | None =>
      match opt_parent opts with
      | Some p => bounds_of s p
      | None => None
      end
  end.

(** The window whose bounds the constructor reads for its snapshot. *)
Definition snapshot_source (opts : PopupViewOptions) : option WinId :=
  match opt_anchorWindow opts with
  | Some a => Some a
  | None => opt_parent opts
  end.

(** Variant A, with its one task, has made no [show()] since [s0] as long
    as the content check has not passed. *)
Definition unshown (s0 : State) (sys : System) : Prop :=
  variant sys = VariantA /\
  exists t, tasks sys = [t] /\ (waiting t = true -> quiet s0 (state sys)).

(** Variant A with its [load] finished. *)
Definition over (sys : System) : Prop :=
  variant sys = VariantA /\ tasks sys = [None].

(** ** A popup on a screen *)

Definition main_window : BrowserWindow :=
  mkWindow false {| x := num 100; y := num 50; width := num 1024; height := num 768 |}
    true false 0.

(** The application before the popup is created: its main window, focused. *)
Definition before : State :=
  mkState
    (mkPopupView None None None None ""
       {| x := num 0; y := num 0; width := num 0; height := num 0 |} false false)
    [main_window] (Some 0) [].

Definition options : PopupViewOptions :=
  mkOptions "ext" (Some 0) (Some 0) "popup.html"
    {| x := num 10; y := num 20; width := num 30; height := num 20 |}.

(** Options without anchor and without parent. *)
Definition orphan : PopupViewOptions :=
  mkOptions "ext" None None "popup.html"
    {| x := num 10; y := num 20; width := num 30; height := num 20 |}.

Definition fresh_bounds : Rectangle :=
  {| x := num 0; y := num 0; width := num 800; height := num 600 |}.

Definition popupA : System :=
  mkSystem VariantA 1 0 (exec (constructor VariantA options fresh_bounds) before)
    [Some (LoadA_loadURL 1)].

Definition popupB : System :=
  mkSystem VariantB 1 0 (exec (constructor VariantB options fresh_bounds) before)
    [Some (LoadB_loadURL 1)].

(** Variant A once the page has loaded, has content, and the settle delay
    has passed: [queryPreferredSize] is suspended at its script evaluation. *)
Definition polling : System :=
  run [Settle 0 (Fulfilled VUndefined);
       Settle 0 (Fulfilled (VBool true));
       Settle 0 (Fulfilled VUndefined)] popupA.

(** The popup of variant A when its window has just been closed from
    outside, as the window's 'closed' handler finds it. *)
Definition popup_closed : State :=
  set_windows (<[1 := mkWindow true fresh_bounds false false 1]> (windows (state popupA)))
    (state popupA).

Definition placed (ox oy w h : Z) : Rectangle :=
  {| x := num ox; y := num oy; width := num w; height := num h |}.

(** Options with an offset between the pixels: [0.9999999999999999], the
    double just below 1, and [20.5]. *)
Definition subpixel : PopupViewOptions :=
  mkOptions "ext" (Some 0) (Some 0) "popup.html"
    {| x := Fin (9007199254740991 # 9007199254740992); y := Fin (41 # 2);
       width := num 30; height := num 20 |}.

Definition popupS : System :=
  mkSystem VariantA 1 0 (exec (constructor VariantA subpixel fresh_bounds) before)
    [Some (LoadA_loadURL 1)].

(** ** More of the class, and the vocabulary of its invariants *)

(** [PopupView.isDestroyed()] *)
Definition PopupView_isDestroyed : M bool := get destroyed.

(** The registrations of [this.destroy] on window [w]. *)
Definition listeners (s : State) (w : WinId) : nat :=
  match windows s !! w with
  | Some win => closedListeners win
  | None => 0
  end.

(** Between two events.  While the popup is not destroyed the instance holds
    its window and its parent, the window is live and [this.destroy] is
    subscribed to its 'closed' event, and to the parent's as long as the
    parent lives.  Once destroyed the instance holds neither, and the window
    is gone. *)
Definition sound (p o : WinId) (s : State) : Prop :=
  (destroyed (this s) = false ->
     browserWindow (this s) = Some p /\ parent (this s) = Some o /\
     live s p /\ 1 <= listeners s p /\ (live s o -> 1 <= listeners s o)) /\
  (destroyed (this s) = true ->
     browserWindow (this s) = None /\ parent (this s) = None /\ gone s p = true).

(** [sound] but for the liveness of the window: what [destroy] needs to find. *)
Definition held (p o : WinId) (s : State) : Prop :=
  (destroyed (this s) = false ->
     browserWindow (this s) = Some p /\ parent (this s) = Some o) /\
  (destroyed (this s) = true ->
     browserWindow (this s) = None /\ parent (this s) = None /\ gone s p = true).

(** Nothing of what [sound] speaks of has changed. *)
Definition steady (s s' : State) : Prop :=
  destroyed (this s') = destroyed (this s) /\
  browserWindow (this s') = browserWindow (this s) /\
  parent (this s') = parent (this s) /\
  forall w, gone s' w = gone s w /\ listeners s' w = listeners s w.

Definition stays_sound (p o : WinId) (s s' : State) : Prop :=
  sound p o s -> sound p o s'.

(** What one more registration of [this.destroy] makes of the store. *)
Definition subscribed (w : WinId) (ws : list BrowserWindow) : list BrowserWindow :=
  match ws !! w with
  | Some win =>
      <[w := mkWindow (win_destroyed win) (win_bounds win) (win_visible win)
               (win_devTools win) (S (closedListeners win))]> ws
  | None => ws
  end.

(** The window [new BrowserWindow] creates. *)
Definition created (initial : Rectangle) : BrowserWindow :=
  mkWindow false initial false false 0.

(** The task [load] is when the constructor returns. *)
Definition loading (v : Variant) (win : WinId) : Task :=
  match v with
  | VariantA => LoadA_loadURL win
  | VariantB => LoadB_loadURL win
  end.

(** The state a constructor that returns leaves. *)
Definition constructed (opts : PopupViewOptions) (initial : Rectangle) (pw : WinId)
    (s0 : State) : State :=
  let n := length (windows s0) in
  mkState
    (mkPopupView (Some n) (Some pw) (opt_anchorWindow opts) (snapshot_of opts s0)
       (opt_extensionId opts) (opt_anchorRect opts) false false)
    (subscribed pw (subscribed n (windows s0 ++ [created initial])))
    (focusedWindow s0)
    (calls s0 ++ [CallLoadURL n (opt_url opts)]).

(** What [off('closed', this.destroy)] and [destroy()] make of a window. *)
Definition unsubscribe (win : BrowserWindow) : BrowserWindow :=
  mkWindow (win_destroyed win) (win_bounds win) (win_visible win) (win_devTools win)
    (Nat.pred (closedListeners win)).

Definition dead (win : BrowserWindow) : BrowserWindow :=
  mkWindow true (win_bounds win) false false (closedListeners win).

(** The events that tear a live popup down, each with what it needs for
    it: the popup's window or its parent is closed, the owner calls
    [destroy()], or the popup loses the focus or its devtools while a window
    of the application has the focus. *)
Definition tears_down (e : Event) (sys : System) : Prop :=
  match e with
  | Closed | Destroy => True
  | ParentClosed => live (state sys) (owner sys)
  | Blur => devToolsOpen (state sys) = false /\ focusedWindow (state sys) <> None
  | DevToolsClosed => focusedWindow (state sys) <> None
  | _ => False
  end.

(** The calls that evaluate the measuring script, and how many a state has
    seen. *)
Definition is_measure (c : Call) : bool :=
  match c with
  | CallExecuteJavaScript _ MeasureContent => true
  | _ => false
  end.

Definition measurements (s : State) : nat := count_call is_measure (calls s).

(** From a state with the latch set: the latch stays set and no measurement
    is started. *)
Definition latched (s s' : State) : Prop :=
  usingPreferredSize (this s) = true ->
  usingPreferredSize (this s') = true /\ measurements s' = measurements s.

(** How many [show()] a state has seen. *)
Definition shows (s : State) : nat := count_call is_show (calls s).

(** A resumed task calls [show()] at most once, and only as it finishes. *)
Definition final (m : M (option Task)) : Prop :=
  forall s,
    shows (snd (m s)) <=
      shows s + match finished (fst (m s)) with Some _ => 0 | None => 1 end.

(** Variant A, with its one task, has called [show()] at most [n] times
    before its [load] has finished, at most [S n] times in all. *)
Definition shown_within (n : nat) (sys : System) : Prop :=
  variant sys = VariantA /\
  exists t, tasks sys = [t] /\
    shows (state sys) <= n + match t with Some _ => 0 | None => 1 end.

(** The log of [s'] continues the log of [s]. *)
Definition grows (s s' : State) : Prop := exists l, calls s' = calls s ++ l.

(** The window a call is made on. *)
Definition target (c : Call) : WinId :=
  match c with
  | CallSetBounds w _ | CallShow w | CallOffClosed w | CallCloseDevTools w
  | CallDestroy w | CallLoadURL w _ | CallExecuteJavaScript w _ => w
  end.

(** The calls of a popup with window [p] and parent [o]: any call on its own
    window, and the unsubscription from its parent. *)
Definition own_call (p o : WinId) (c : Call) : Prop :=
  target c = p \/ c = CallOffClosed o.

(** The instance refers to no other window than [p], to no other parent
    than [o]. *)
Definition owns (p o : WinId) (s : State) : Prop :=
  (browserWindow (this s) = None \/ browserWindow (this s) = Some p) /\
  (parent (this s) = None \/ parent (this s) = Some o).

(** From [s] to [s'] the instance has kept to its window and its parent. *)
Definition confined (p o : WinId) (s s' : State) : Prop :=
  owns p o s ->
  owns p o s' /\ exists l, calls s' = calls s ++ l /\ Forall (own_call p o) l.

(** The window a suspended function has kept in its local [win] is [p]; in
    [domReady], where it is read without a check, [p] or none. *)
Definition task_on (p : WinId) (t : option Task) : Prop :=
  match t with
  | Some (LoadA_loadURL w) | Some (LoadA_hasChildNodes w) | Some (LoadA_timeout w)
  | Some (LoadA_query w) | Some (LoadB_loadURL w) => w = p
  | Some (DomReady_timeout w) | Some (DomReady_query w) => w = None \/ w = Some p
  | None => True
  end.

(** *** The page asks for a new window *)

(** Variant A registers one more handler in its constructor, on 'new-window'
    of the popup's web contents: it cancels the default and hands the URL to
    the extension store, [this.store.newWindow({url: url})].  Variant B has
    no such handler.  Of the store, what is kept is the list of the requests
    made to it. *)
Inductive PageEvent : Type :=
  | Ordinary (e : Event)           (* one of the events above *)
  | NewWindow (url : string).      (* 'new-window' of the popup's web contents *)

Record Hosted : Type := mkHosted {
  hosted : System;
  requests : list string;   (* the [url] of each [store.newWindow], in order *)
}.

Definition page_step (e : PageEvent) (h : Hosted) : Hosted :=
  match e with
  | Ordinary e => mkHosted (step e (hosted h)) (requests h)
  | NewWindow url =>
      match variant (hosted h) with
      | VariantA => mkHosted (hosted h) (requests h ++ [url])
      | VariantB => h
      end
  end.

Definition page_run (evs : list PageEvent) (h : Hosted) : Hosted :=
  fold_left (fun acc e => page_step e acc) evs h.

(** The URLs the page has asked a new window for. *)
Definition asked (evs : list PageEvent) : list string :=
  omap (fun e => match e with NewWindow url => Some url | Ordinary _ => None end) evs.

(** The other events. *)
Definition ordinary (evs : list PageEvent) : list Event :=
  omap (fun e => match e with Ordinary e => Some e | NewWindow _ => None end) evs.

(** ** Numbers *)

Lemma Qle_bool_false p q : Qle_bool p q = false -> (q < p)%Q.
Proof.
  intros H. apply Qnot_le_lt. intros Hle. apply Qle_bool_iff in Hle. congruence.
Qed.

Lemma floor_clamp (lo hi : Z) (v : option number) :
  (0 < lo)%Z -> (lo <= hi)%Z ->
  Math_floor (Math_min (num hi) (Math_max (or_zero v) (num lo)))
  = num (Qfloor (clamped lo hi v)).
Proof.
  intros Hlo Hle.
  assert (H0 : Qle_bool (inject_Z 0) (inject_Z lo) = true).
  { apply Qle_bool_iff. rewrite <- Zle_Qle. lia. }
  assert (H1 : Qle_bool (inject_Z hi) (inject_Z lo) = true -> hi = lo).
  { intros H. apply Qle_bool_iff in H. rewrite <- Zle_Qle in H. lia. }
  assert (Hz : Math_floor (Math_min (num hi) (Math_max (num 0) (num lo))) = num lo).
  { cbn [num Math_floor Math_min Math_max or_zero]. rewrite H0.
    destruct (Qle_bool (inject_Z hi) (inject_Z lo)) eqn:E; cbn [num Math_floor Math_min Math_max or_zero].
    - rewrite (H1 eq_refl). now rewrite Qfloor_Z.
    - now rewrite Qfloor_Z. }
  destruct v as [[q| | |]|]; cbn [or_zero clamped].
  - destruct (Qeq_bool q 0) eqn:Eq0.
    + rewrite Hz. apply Qeq_bool_iff in Eq0.
      destruct (Qlt_le_dec q (inject_Z lo)) as [_|Hc]; [now rewrite Qfloor_Z|].
      exfalso. rewrite Eq0 in Hc. change 0%Q with (inject_Z 0) in Hc.
      rewrite <- Zle_Qle in Hc. lia.
    + cbn [num Math_floor Math_min Math_max or_zero].
      destruct (Qle_bool q (inject_Z lo)) eqn:E1.
      * apply Qle_bool_iff in E1.
        assert (Hr : Math_floor (if Qle_bool (inject_Z hi) (inject_Z lo)
                                 then Fin (inject_Z hi) else Fin (inject_Z lo)) = num lo).
        { destruct (Qle_bool (inject_Z hi) (inject_Z lo)) eqn:E; cbn [num Math_floor Math_min Math_max or_zero].
          - rewrite (H1 eq_refl). now rewrite Qfloor_Z.
          - now rewrite Qfloor_Z. }
        rewrite Hr.
        destruct (Qlt_le_dec q (inject_Z lo)) as [_|Hc]; [now rewrite Qfloor_Z|].
        destruct (Qlt_le_dec (inject_Z hi) q) as [Hd|Hd].
        -- exfalso. assert (inject_Z hi < inject_Z lo)%Q by (eapply Qlt_le_trans; eauto).
           rewrite <- Zlt_Qlt in H. lia.
        -- assert (Hq : (q == inject_Z lo)%Q) by (apply Qle_antisym; assumption).
           rewrite (Qfloor_comp _ _ Hq). now rewrite Qfloor_Z.
      * apply Qle_bool_false in E1.
        destruct (Qlt_le_dec q (inject_Z lo)) as [Hc|_].
        { exfalso. exact (Qlt_irrefl _ (Qlt_trans _ _ _ Hc E1)). }
        destruct (Qle_bool (inject_Z hi) q) eqn:E2; cbn [num Math_floor Math_min Math_max or_zero].
        -- apply Qle_bool_iff in E2.
           destruct (Qlt_le_dec (inject_Z hi) q) as [_|Hd]; [reflexivity|].
           assert (Hq : (q == inject_Z hi)%Q) by (apply Qle_antisym; assumption).
           rewrite (Qfloor_comp _ _ Hq). now rewrite Qfloor_Z.
        -- apply Qle_bool_false in E2.
           destruct (Qlt_le_dec (inject_Z hi) q) as [Hd|_]; [|reflexivity].
           exfalso. exact (Qlt_irrefl _ (Qlt_trans _ _ _ Hd E2)).
  - cbn [num Math_floor Math_min Math_max or_zero]. now rewrite Qfloor_Z.
  - cbn [num Math_floor Math_min Math_max or_zero].
    destruct (Qle_bool (inject_Z hi) (inject_Z lo)) eqn:E; cbn [num Math_floor Math_min Math_max or_zero].
    + rewrite (H1 eq_refl). now rewrite Qfloor_Z.
    + now rewrite Qfloor_Z.
  - rewrite Qfloor_Z. exact Hz.
  - rewrite Qfloor_Z. exact Hz.
Qed.

Lemma clamped_bounds (lo hi : Z) (v : option number) :
  (lo <= hi)%Z -> (lo <= Qfloor (clamped lo hi v) <= hi)%Z.
Proof.
  intros Hle.
  assert (Hl : (lo <= Qfloor (inject_Z lo) <= hi)%Z) by (rewrite Qfloor_Z; lia).
  assert (Hh : (lo <= Qfloor (inject_Z hi) <= hi)%Z) by (rewrite Qfloor_Z; lia).
  destruct v as [[q| | |]|]; cbn [clamped]; try assumption.
  destruct (Qlt_le_dec q (inject_Z lo)) as [|H1]; [assumption|].
  destruct (Qlt_le_dec (inject_Z hi) q) as [|H2]; [assumption|].
  split.
  - rewrite <- (Qfloor_Z lo). now apply Qfloor_resp_le.
  - rewrite <- (Qfloor_Z hi). now apply Qfloor_resp_le.
Qed.

(** ** Electron's methods on a known window *)

Lemma insert_flag {B} (f : BrowserWindow -> B) (ws : list BrowserWindow)
    (w w' : WinId) (win0 win : BrowserWindow) :
  ws !! w = Some win0 -> f win = f win0 ->
  f <$> (<[w := win]> ws) !! w' = f <$> ws !! w'.
Proof.
  intros Hw Hf. destruct (decide (w = w')) as [<-|Hne].
  - rewrite list_lookup_insert_eq by (eapply lookup_lt_Some; eassumption).
    rewrite Hw. simpl. now rewrite Hf.
  - now rewrite list_lookup_insert_ne.
Qed.

Lemma gone_flag (s : State) (w : WinId) :
  gone s w = default true (win_destroyed <$> windows s !! w).
Proof. unfold gone. now destruct (windows s !! w). Qed.

Lemma inspected_flag (s : State) (w : WinId) :
  inspected s w = default false (win_devTools <$> windows s !! w).
Proof. unfold inspected. now destruct (windows s !! w). Qed.

Lemma isDestroyed_gone (w : WinId) (s : State) :
  isDestroyed w s = (Return (gone s w), s).
Proof. unfold isDestroyed, gone. now destruct (windows s !! w). Qed.

Lemma native_live (w : WinId) (s : State) :
  live s w -> exists win, windows s !! w = Some win /\ win_destroyed win = false
                          /\ native w s = (Return win, s).
Proof.
  unfold live, gone, native. destruct (windows s !! w) as [win|]; [|discriminate].
  intros Hd. exists win. rewrite Hd. auto.
Qed.

(** [off_closed] changes no flag of any window. *)
Lemma off_closed_spec (w : WinId) (s : State) :
  exists s', off_closed w s = (Return tt, s') /\
    this s' = this s /\ focusedWindow s' = focusedWindow s /\
    calls s' = calls s ++ [CallOffClosed w] /\
    (forall w', gone s' w' = gone s w') /\
    (forall w', inspected s' w' = inspected s w').
Proof.
  unfold off_closed, bind, log, object, store, skip, ret. cbn.
  destruct (windows s !! w) as [win|] eqn:Hw; cbn.
  - eexists; split; [reflexivity|]. cbn. repeat split; auto; intros w'.
    + rewrite !gone_flag. cbn. now rewrite (insert_flag win_destroyed _ _ _ win).
    + rewrite !inspected_flag. cbn. now rewrite (insert_flag win_devTools _ _ _ win).
  - eexists; split; [reflexivity|]. cbn. repeat split; auto.
Qed.

(** The window part of [destroy], on a live window. *)
Lemma closeDevTools_live (w : WinId) (s : State) :
  live s w ->
  exists s', closeDevTools w s = (Return tt, s') /\
    this s' = this s /\ focusedWindow s' = focusedWindow s /\
    calls s' = calls s ++ [CallCloseDevTools w] /\ live s' w.
Proof.
  intros Hl. destruct (native_live w s Hl) as (win & Hw & Hd & Hn).
  unfold closeDevTools, bind, log, store. cbn.
  unfold native in *. cbn. rewrite Hw, Hd. cbn.
  eexists; split; [reflexivity|]. cbn. repeat split; auto.
  unfold live, gone. cbn.
  now rewrite list_lookup_insert_eq by (eapply lookup_lt_Some; eassumption).
Qed.

Lemma destroy_window_live (w : WinId) (s : State) :
  live s w ->
  exists s', destroy_window w s = (Return tt, s') /\
    this s' = this s /\ focusedWindow s' = focusedWindow s /\
    calls s' = calls s ++ [CallDestroy w] /\ gone s' w = true.
Proof.
  intros Hl. destruct (native_live w s Hl) as (win & Hw & Hd & Hn).
  unfold destroy_window, bind, log, store. cbn.
  unfold native in *. cbn. rewrite Hw, Hd. cbn.
  eexists; split; [reflexivity|]. cbn. repeat split; auto.
  unfold gone. cbn.
  now rewrite list_lookup_insert_eq by (eapply lookup_lt_Some; eassumption).
Qed.

(** ** [destroy] *)

(** One effective call: it returns, sets the flag, clears both references
    and makes exactly the calls of [destroy_calls]. *)

Lemma bind_return {A B} (m : M A) (f : A -> M B) (s s' : State) (a : A) :
  m s = (Return a, s') -> bind m f s = f a s'.
Proof. unfold bind. now intros ->. Qed.

Lemma bind_assoc {A B C} (m : M A) (f : A -> M B) (g : B -> M C) (s : State) :
  bind (bind m f) g s = bind m (fun a => bind (f a) g) s.
Proof. unfold bind. destruct (m s) as [[a|e] s']; reflexivity. Qed.

Lemma destroy_first (s : State) :
  destroyed (this s) = false ->
  exists s', destroy s = (Return tt, s') /\
    this s' = set_browserWindow None (set_parent None (set_destroyed true (this s))) /\
    focusedWindow s' = focusedWindow s /\
    calls s' = calls s ++ destroy_calls s /\
    (forall bw, browserWindow (this s) = Some bw -> gone s' bw = true).
Proof.
  intros Hd. unfold destroy, destroy_calls.
  rewrite (bind_return _ _ s s false) by (unfold get; now rewrite Hd).
  erewrite bind_return by reflexivity.
  erewrite bind_return by reflexivity.
  cbn [this set_this parent set_destroyed].
  (* the parent *)
  match goal with |- context [bind ?m _ (set_this _ s)] =>
    assert (exists s1, m (set_this (set_destroyed true) s) = (Return tt, s1) /\
      this s1 = set_parent None (set_destroyed true (this s)) /\
      focusedWindow s1 = focusedWindow s /\
      calls s1 = calls s ++ match parent (this s) with
                            | Some pw => if gone s pw then [] else [CallOffClosed pw]
                            | None => []
                            end /\
      (forall w, gone s1 w = gone s w) /\ (forall w, inspected s1 w = inspected s w))
      as (s1 & E1 & T1 & F1 & C1 & G1 & I1)
  end.
  { destruct (parent (this s)) as [pw|] eqn:Hp.
    - rewrite (bind_return _ _ _ _ _ (isDestroyed_gone pw _)).
      change (gone (set_this (set_destroyed true) s) pw) with (gone s pw).
      destruct (gone s pw); cbn [negb].
      + eexists; split; [reflexivity|]. cbn. rewrite app_nil_r. auto.
      + destruct (off_closed_spec pw (set_this (set_destroyed true) s))
          as (s1 & E & T & F & C & G & I).
        rewrite (bind_return _ _ _ _ _ E).
        eexists; split; [reflexivity|]. cbn. rewrite T. auto.
    - eexists; split; [reflexivity|]. cbn. rewrite app_nil_r.
      destruct (this s); cbn in *; subst; auto. }
  rewrite (bind_return _ _ _ _ _ E1).
  erewrite bind_return by reflexivity.
  rewrite T1. cbn [browserWindow set_parent set_destroyed].
  (* the window *)
  destruct (browserWindow (this s)) as [bw|] eqn:Hb.
  - rewrite (bind_return _ _ _ _ _ (isDestroyed_gone bw _)), G1.
    destruct (gone s bw) eqn:Hg; cbn [negb].
    + eexists; split; [reflexivity|]. cbn. rewrite T1, F1, C1, app_nil_r.
      split; [reflexivity|]. split; [reflexivity|]. split; [reflexivity|].
      intros ? [= <-]. change (gone s1 bw = true). now rewrite G1.
    + assert (Hl : live s1 bw) by (unfold live; now rewrite G1).
      destruct (native_live bw s1 Hl) as (win & Hw & Hwd & Hn).
      assert (Hi : isDevToolsOpened bw s1 = (Return (inspected s bw), s1)).
      { unfold isDevToolsOpened. rewrite (bind_return _ _ _ _ _ Hn).
        rewrite <- I1. unfold inspected. now rewrite Hw. }
      rewrite !bind_assoc, (bind_return _ _ _ _ _ Hi).
      assert (exists s2, (if inspected s bw then closeDevTools bw else skip) s1
                         = (Return tt, s2) /\
        this s2 = this s1 /\ focusedWindow s2 = focusedWindow s1 /\
        calls s2 = calls s1 ++ (if inspected s bw then [CallCloseDevTools bw] else []) /\
        live s2 bw) as (s2 & E2 & T2 & F2 & C2 & L2).
      { destruct (inspected s bw).
        - apply closeDevTools_live, Hl.
        - eexists; split; [reflexivity|]. rewrite app_nil_r. auto. }
      rewrite !bind_assoc, (bind_return _ _ _ _ _ E2).
      destruct (off_closed_spec bw s2) as (s3 & E3 & T3 & F3 & C3 & G3 & I3).
      rewrite !bind_assoc, (bind_return _ _ _ _ _ E3).
      assert (L3 : live s3 bw) by (unfold live; now rewrite G3).
      destruct (destroy_window_live bw s3 L3) as (s4 & E4 & T4 & F4 & C4 & G4).
      rewrite (bind_return _ _ _ _ _ E4).
      eexists; split; [reflexivity|]. cbn.
      rewrite T4, T3, T2, T1, F4, F3, F2, F1, C4, C3, C2, C1. cbn.
      rewrite <- !app_assoc.
      split; [reflexivity|]. split; [reflexivity|]. split; [reflexivity|].
      intros ? [= <-]. exact G4.
  - eexists; split; [reflexivity|]. rewrite T1, F1, C1, app_nil_r.
    split; [|split; [reflexivity|split; [reflexivity|discriminate]]].
    destruct (this s); cbn in *; subst; auto.
Qed.
Lemma destroy_again (s : State) :
  destroyed (this s) = true -> destroy s = (Return tt, s).
Proof.
  intros Hd. unfold destroy.
  rewrite (bind_return _ _ s s true) by (unfold get; now rewrite Hd).
  reflexivity.
Qed.

Lemma destroy_returns (s : State) : fst (destroy s) = Return tt.
Proof.
  destruct (destroyed (this s)) eqn:Hd.
  - now rewrite destroy_again.
  - destruct (destroy_first s Hd) as (s' & E & _). now rewrite E.
Qed.

Lemma destroy_destroyed (s : State) : destroyed (this (exec destroy s)) = true.
Proof.
  unfold exec. destruct (destroyed (this s)) eqn:Hd.
  - now rewrite destroy_again.
  - destruct (destroy_first s Hd) as (s' & E & T & _). rewrite E. cbn. now rewrite T.
Qed.

Lemma destroy_released (s : State) :
  released s ->
  browserWindow (this (exec destroy s)) = None /\ parent (this (exec destroy s)) = None.
Proof.
  intros Hr. unfold exec. destruct (destroyed (this s)) eqn:Hd.
  - rewrite destroy_again by assumption. now apply Hr.
  - destruct (destroy_first s Hd) as (s' & E & T & _). rewrite E. cbn. now rewrite T.
Qed.

Lemma destroy_twice (s : State) : exec destroy (exec destroy s) = exec destroy s.
Proof.
  unfold exec at 1. now rewrite destroy_again by apply destroy_destroyed.
Qed.

Lemma destroy_iter (n : nat) (s : State) :
  1 <= n -> Nat.iter n (exec destroy) s = exec destroy s.
Proof.
  induction n as [|n IH]; [lia|]. intros _. destruct n as [|n]; [reflexivity|].
  change (exec destroy (Nat.iter (S n) (exec destroy) s) = exec destroy s).
  rewrite IH by lia. apply destroy_twice.
Qed.

Lemma count_call_app c l1 l2 :
  count_call c (l1 ++ l2) = count_call c l1 + count_call c l2.
Proof. unfold count_call. now rewrite List.filter_app, length_app. Qed.

(** How often one effective [destroy()] unsubscribes from, and destroys, a
    window: once if it is still there, never otherwise. *)
Lemma destroy_calls_counts (s : State) (pw bw : WinId) :
  parent (this s) = Some pw -> browserWindow (this s) = Some bw -> pw <> bw ->
  count_call (is_off pw) (destroy_calls s) = (if gone s pw then 0 else 1) /\
  count_call (is_off bw) (destroy_calls s) = (if gone s bw then 0 else 1) /\
  count_call (is_destroy bw) (destroy_calls s) = (if gone s bw then 0 else 1) /\
  count_call (is_destroy pw) (destroy_calls s) = 0.
Proof.
  intros Hp Hb Hne. unfold destroy_calls. rewrite Hp, Hb.
  assert (Hpb : Nat.eqb pw bw = false) by now apply Nat.eqb_neq.
  assert (Hbp : Nat.eqb bw pw = false) by (apply Nat.eqb_neq; congruence).
  destruct (gone s pw), (gone s bw), (inspected s bw);
    unfold count_call; cbn; rewrite ?Nat.eqb_refl, ?Hpb, ?Hbp; cbn; auto.
Qed.
(** ** Addition *)

Lemma Qred_integer (z : Z) : Qred (inject_Z z) = inject_Z z.
Proof.
  unfold Qred, inject_Z.
  pose proof (Z.ggcd_gcd z 1) as Hg. pose proof (Z.ggcd_correct_divisors z 1) as Hd.
  destruct (Z.ggcd z 1) as [g [a b]]. cbn [fst snd] in *.
  rewrite Z.gcd_1_r in Hg. subst g. destruct Hd as [Ha Hb].
  rewrite Z.mul_1_l in Ha, Hb. now subst a b.
Qed.

Lemma nearest_even_integer (q : Q) (m : Z) : (q == inject_Z m)%Q -> nearest_even q = m.
Proof.
  intros H. unfold nearest_even. cbv zeta.
  assert (Hf : Qfloor q = m) by (rewrite H; apply Qfloor_Z).
  rewrite Hf.
  assert (Hc : Qcompare (q - inject_Z m)%Q (1 # 2)%Q = Lt).
  { rewrite H. apply Qlt_alt. assert (Hz : (inject_Z m - inject_Z m == 0)%Q) by ring.
    rewrite Hz.
    reflexivity. }
  now rewrite Hc.
Qed.

Lemma pow2_nonneg (k : Z) : (0 <= k)%Z -> (pow2 k == inject_Z (2 ^ k))%Q.
Proof. intros H. unfold pow2. now rewrite (Zpower_Qpower 2 k H). Qed.

(** An integer below [2^53] in magnitude is a double: rounding keeps it. *)
Lemma binary64_integer (z : Z) : (Z.abs z < 2 ^ 53)%Z -> binary64 (inject_Z z) = num z.
Proof.
  intros Hz. unfold binary64.
  destruct (Z.eq_dec z 0%Z) as [->|Hnz]; [reflexivity|].
  assert (E0 : Qeq_bool (inject_Z z) 0%Q = false).
  { apply not_true_is_false. intros H. apply Qeq_bool_iff in H.
    unfold Qeq in H. cbn in H. lia. }
  rewrite E0. clear E0.
  set (k := Z.log2 (Z.abs z)).
  assert (Hpos : (0 < Z.abs z)%Z) by lia.
  assert (Hk : (0 <= k < 53)%Z).
  { split; [apply Z.log2_nonneg|]. now apply Z.log2_lt_pow2. }
  pose proof (Z.log2_spec _ Hpos) as Hs. fold k in Hs.
  assert (Habs : Qabs (inject_Z z) = inject_Z (Z.abs z)) by reflexivity.
  assert (Hi : ilog2 (inject_Z z) = k).
  { unfold ilog2. cbn [Qnum Qden inject_Z]. change (Z.log2 1) with 0%Z.
    rewrite Z.sub_0_r. fold k. change (z # 1) with (inject_Z z).
    assert (Hle : Qle_bool (pow2 k) (Qabs (inject_Z z)) = true).
    { apply Qle_bool_iff. rewrite Habs, pow2_nonneg by lia. rewrite <- Zle_Qle.
      exact (proj1 Hs). }
    now rewrite Hle. }
  rewrite Hi. cbv zeta. clear Hi Hs. clearbody k.
  rewrite Z.max_l by lia.
  assert (He : exists j, (0 <= j)%Z /\ (k - 52 = - j)%Z) by (exists (52 - k)%Z; lia).
  destruct He as (j & Hj & ->). clear Hk.
  assert (Hp : (pow2 (- j) == / inject_Z (2 ^ j))%Q).
  { unfold pow2.
    now rewrite Qpower_opp, <- (Zpower_Qpower 2 j Hj). }
  assert (Hnz2 : ~ (inject_Z (2 ^ j) == 0)%Q).
  { intros H. unfold Qeq in H. cbn in H. pose proof (Z.pow_pos_nonneg 2 j). lia. }
  assert (Hdiv : (inject_Z z / pow2 (- j) == inject_Z (z * 2 ^ j))%Q).
  { rewrite Hp, inject_Z_mult. field. exact Hnz2. }
  rewrite (nearest_even_integer _ _ Hdiv).
  assert (Hr : Qred (inject_Z (z * 2 ^ j) * pow2 (- j))%Q = inject_Z z).
  { rewrite <- (Qred_integer z). apply Qred_complete.
    rewrite Hp, inject_Z_mult. field. exact Hnz2. }
  rewrite Hr, Habs.
  assert (Ho : Qle_bool (pow2 1024) (inject_Z (Z.abs z)) = false).
  { apply not_true_is_false. intros H. apply Qle_bool_iff in H.
    rewrite pow2_nonneg in H by lia. rewrite <- Zle_Qle in H.
    assert ((2 ^ 53 < 2 ^ 1024)%Z) by (apply Z.pow_lt_mono_r; lia). lia. }
  now rewrite Ho.
Qed.

(** On integers whose sum is below [2^53] in magnitude, as the coordinates
    of a screen are, [+] is the exact sum. *)
Lemma plus_integers (a b : Z) :
  (Z.abs (a + b) < 2 ^ 53)%Z -> plus (num a) (num b) = num (a + b).
Proof.
  intros H. unfold plus, num.
  replace (inject_Z a + inject_Z b)%Q with (inject_Z (a + b)).
  - now apply binary64_integer.
  - unfold inject_Z, Qplus. cbn. now rewrite !Z.mul_1_r.
Qed.

Lemma floor_plus_integers (a b : Z) :
  (Z.abs (a + b) < 2 ^ 53)%Z -> Math_floor (plus (num a) (num b)) = num (a + b).
Proof.
  intros H. rewrite (plus_integers a b H). unfold Math_floor, num.
  now rewrite Qfloor_Z.
Qed.

(** [+] as JavaScript computes it:
    [100 + 0.9999999999999999] is [101], the exact sum being no double;
    [0.1 + 0.2] is [0.30000000000000004];
    [2^53 + 1] is [2^53] and [2^53 + 3] is [2^53 + 4], the ties going to the
    even mantissa;
    [5e-324 + 5e-324], the least subnormal twice, is [1e-323];
    the greatest double plus [2^969] is itself, plus [2^970] is
    [Infinity]. *)
Lemma plus_rounds :
  plus (num 100) (Fin (9007199254740991 # 9007199254740992)) = num 101 /\
  plus (Fin (3602879701896397 # 36028797018963968))
       (Fin (3602879701896397 # 18014398509481984))
  = Fin (1351079888211149 # 4503599627370496) /\
  plus (num (2 ^ 53)) (num 1) = num (2 ^ 53) /\
  plus (num (2 ^ 53)) (num 3) = num (2 ^ 53 + 4) /\
  plus (Fin (1 # 2 ^ 1074)) (Fin (1 # 2 ^ 1074)) = Fin (1 # 2 ^ 1073) /\
  plus (num (2 ^ 1024 - 2 ^ 971)) (num (2 ^ 969)) = num (2 ^ 1024 - 2 ^ 971) /\
  plus (num (2 ^ 1024 - 2 ^ 971)) (num (2 ^ 970)) = PosInfinity /\
  plus (num (- (2 ^ 1024 - 2 ^ 971))) (num (- 2 ^ 970)) = NegInfinity.
Proof. vm_compute. repeat split; reflexivity. Qed.

(** ** [setSize] and [updatePosition] *)

Lemma setSize_released (rect : PartialRectangle) (s : State) :
  browserWindow (this s) = None \/ parent (this s) = None ->
  setSize rect s = (Return tt, s).
Proof.
  intros H. unfold setSize, bind, get. cbn.
  destruct H as [-> | ->]; [reflexivity|].
  now destruct (browserWindow (this s)).
Qed.

Lemma updatePosition_released (s : State) :
  browserWindow (this s) = None \/ anchorWindowBounds (this s) = None ->
  updatePosition s = (Return tt, s).
Proof.
  intros H. unfold updatePosition, bind, get. cbn.
  destruct H as [-> | ->]; [reflexivity|].
  now destruct (browserWindow (this s)).
Qed.

Lemma setBounds_live (w : WinId) (r : Rectangle) (s : State) (win : BrowserWindow) :
  windows s !! w = Some win -> win_destroyed win = false ->
  setBounds w r s =
    (Return tt,
     set_windows (<[w := mkWindow false r (win_visible win) (win_devTools win)
                            (closedListeners win)]> (windows s))
       (add_call (CallSetBounds w r) s)).
Proof.
  intros Hw Hd. unfold setBounds, bind, log, native, store. cbn. now rewrite Hw, Hd.
Qed.

Lemma getBounds_live (w : WinId) (s : State) (win : BrowserWindow) :
  windows s !! w = Some win -> win_destroyed win = false ->
  getBounds w s = (Return (win_bounds win), s).
Proof.
  intros Hw Hd. unfold getBounds, bind, native, ret. now rewrite Hw, Hd.
Qed.

Lemma setSize_live (rect : PartialRectangle) (s : State) (bw pw : WinId)
    (win : BrowserWindow) :
  browserWindow (this s) = Some bw -> parent (this s) = Some pw ->
  windows s !! bw = Some win -> win_destroyed win = false ->
  let r := with_size (win_bounds win) (num (applied_width rect)) (num (applied_height rect)) in
  setSize rect s =
    (Return tt,
     set_windows (<[bw := mkWindow false r (win_visible win) (win_devTools win)
                             (closedListeners win)]> (windows s))
       (add_call (CallSetBounds bw r) s)).
Proof.
  intros Hb Hp Hw Hd r. unfold setSize.
  rewrite (bind_return _ _ s s (Some bw)) by (unfold get; now rewrite Hb).
  rewrite (bind_return _ _ s s (Some pw)) by (unfold get; now rewrite Hp).
  change (minWidth BOUNDS) with (num 25). change (maxWidth BOUNDS) with (num 800).
  change (minHeight BOUNDS) with (num 25). change (maxHeight BOUNDS) with (num 600).
  rewrite !floor_clamp by lia.
  rewrite (bind_return _ _ _ _ _ (getBounds_live _ _ _ Hw Hd)).
  now rewrite (setBounds_live _ _ _ _ Hw Hd).
Qed.

Lemma updatePosition_live (s : State) (bw : WinId) (ab : Rectangle) (win : BrowserWindow) :
  browserWindow (this s) = Some bw -> anchorWindowBounds (this s) = Some ab ->
  windows s !! bw = Some win -> win_destroyed win = false ->
  let r := with_origin (win_bounds win)
             (Math_floor (plus (x ab) (x (anchorRect (this s)))))
             (Math_floor (plus (y ab) (y (anchorRect (this s))))) in
  updatePosition s =
    (Return tt,
     set_windows (<[bw := mkWindow false r (win_visible win) (win_devTools win)
                             (closedListeners win)]> (windows s))
       (add_call (CallSetBounds bw r) s)).
Proof.
  intros Hb Ha Hw Hd r. unfold updatePosition.
  rewrite (bind_return _ _ s s (Some bw)) by (unfold get; now rewrite Hb).
  rewrite (bind_return _ _ s s (Some ab)) by (unfold get; now rewrite Ha).
  rewrite (bind_return _ _ _ _ _ (getBounds_live _ _ _ Hw Hd)).
  erewrite bind_return by reflexivity.
  rewrite (bind_return _ _ _ _ _ (getBounds_live _ _ _ Hw Hd)).
  now rewrite (setBounds_live _ _ _ _ Hw Hd).
Qed.

Lemma live_window (s : State) (w : WinId) :
  live s w -> exists win, windows s !! w = Some win /\ win_destroyed win = false.
Proof.
  unfold live, gone. destruct (windows s !! w) as [win|]; [eauto|discriminate].
Qed.

(** C1. Whatever rectangle is passed to [setSize], missing, zero or out of
    range fields included, the size it applies to the popup's window is the
    requested width brought into [25, 800] and the requested height brought
    into [25, 600], both floored: two integers within these bounds.  The
    origin of the window stays, and the one call made on the window is that
    [setBounds]. *)
Theorem setSize_clamped (s : State) (rect : PartialRectangle) (bw pw : WinId)
    (cur : Rectangle) :
  browserWindow (this s) = Some bw ->
  parent (this s) = Some pw ->
  live s bw ->
  bounds_of s bw = Some cur ->
  let w := applied_width rect in
  let h := applied_height rect in
  (25 <= w <= 800)%Z /\ (25 <= h <= 600)%Z /\
  fst (setSize rect s) = Return tt /\
  bounds_of (exec (setSize rect) s) bw = Some (with_size cur (num w) (num h)) /\
  calls (exec (setSize rect) s) = calls s ++ [CallSetBounds bw (with_size cur (num w) (num h))].
Proof.
  intros Hb Hp Hl Hc w h.
  split; [apply clamped_bounds; lia|].
  split; [apply clamped_bounds; lia|].
  destruct (live_window s bw Hl) as (win & Hw & Hd).
  unfold bounds_of in Hc. rewrite Hw in Hc. injection Hc as <-.
  unfold exec. rewrite (setSize_live rect s bw pw win Hb Hp Hw Hd). cbn.
  unfold bounds_of. cbn.
  rewrite list_lookup_insert_eq by (eapply lookup_lt_Some; eassumption).
  auto.
Qed.

(** C6. With a live window and an anchor snapshot, [updatePosition] puts the
    popup's origin at [Math.floor] of the sum of the snapshot's origin and
    the offset's origin, the sum being JavaScript's, rounded to a double,
    whatever the popup's position was, and keeps its width and height. *)
Theorem updatePosition_anchored (s : State) (bw : WinId) (ab cur : Rectangle) :
  browserWindow (this s) = Some bw ->
  anchorWindowBounds (this s) = Some ab ->
  live s bw ->
  bounds_of s bw = Some cur ->
  fst (updatePosition s) = Return tt /\
  bounds_of (exec updatePosition s) bw =
    Some {| x := Math_floor (plus (x ab) (x (anchorRect (this s))));
            y := Math_floor (plus (y ab) (y (anchorRect (this s))));
            width := width cur;
            height := height cur |}.
Proof.
  intros Hb Ha Hl Hc.
  destruct (live_window s bw Hl) as (win & Hw & Hd).
  unfold bounds_of in Hc. rewrite Hw in Hc. injection Hc as <-.
  unfold exec. rewrite (updatePosition_live s bw ab win Hb Ha Hw Hd). cbn.
  unfold bounds_of. cbn.
  rewrite list_lookup_insert_eq by (eapply lookup_lt_Some; eassumption).
  auto.
Qed.
(** ** [maybeClose] *)

Lemma isDevToolsOpened_live (w : WinId) (s : State) :
  live s w -> isDevToolsOpened w s = (Return (inspected s w), s).
Proof.
  intros Hl. destruct (native_live w s Hl) as (win & Hw & _ & Hn).
  unfold isDevToolsOpened. rewrite (bind_return _ _ _ _ _ Hn).
  unfold inspected. now rewrite Hw.
Qed.

Lemma maybeClose_cases (s : State) :
  maybeClose s =
    if devToolsOpen s then (Return tt, s)
    else match focusedWindow s with
         | None => (Return tt, s)
         | Some _ => destroy s
         end.
Proof.
  unfold maybeClose, devToolsOpen.
  erewrite bind_return by reflexivity.
  assert (E : forall b : bool,
    bind (ret b) (fun inspected : bool =>
      if inspected then skip
      else bind getFocusedWindow (fun f => match f with None => skip | Some _ => destroy end)) s
    = if b then (Return tt, s)
      else match focusedWindow s with None => (Return tt, s) | Some _ => destroy s end).
  { intros [|]; [reflexivity|].
    unfold bind, ret, getFocusedWindow, skip. cbn.
    now destruct (focusedWindow s). }
  destruct (browserWindow (this s)) as [bw|]; [|apply (E false)].
  rewrite bind_assoc, (bind_return _ _ _ _ _ (isDestroyed_gone bw s)).
  destruct (gone s bw) eqn:Hg; cbn [negb andb]; [apply (E false)|].
  rewrite (bind_return _ _ _ _ _ (isDevToolsOpened_live bw s Hg)).
  destruct (inspected s bw); [reflexivity|].
  unfold bind, ret, getFocusedWindow, skip. cbn.
  now destruct (focusedWindow s).
Qed.

(** C5. [maybeClose] leaves the popup alone while its devtools are open, and
    when no window of the application has the focus; in every other case it
    destroys the popup.  It never throws. *)
Theorem maybeClose_policy (s : State) :
  fst (maybeClose s) = Return tt /\
  (devToolsOpen s = true -> exec maybeClose s = s) /\
  (focusedWindow s = None -> exec maybeClose s = s) /\
  (devToolsOpen s = false -> focusedWindow s <> None ->
     exec maybeClose s = exec destroy s /\
     destroyed (this (exec maybeClose s)) = true).
Proof.
  unfold exec. rewrite maybeClose_cases.
  destruct (devToolsOpen s), (focusedWindow s) as [f|];
    cbn; repeat split; try congruence; try apply destroy_returns;
    intros; apply destroy_destroyed.
Qed.

(** ** Idempotence of [destroy] *)

(** C3, as the code has it.  Any number of calls of [destroy()] leaves what
    one call leaves, calls on Electron included.  The first call sets
    [destroyed], clears both references and makes the calls of
    [destroy_calls]: it unsubscribes from the parent if the parent is not
    yet destroyed and, if the popup's window is not yet destroyed,
    unsubscribes from it and destroys it, each once; a window that is
    already destroyed is left alone.  Every later call returns at once,
    the state unchanged. *)
Theorem destroy_idempotent (s : State) (n : nat) :
  1 <= n ->
  let s' := exec destroy s in
  Nat.iter n (exec destroy) s = s' /\
  fst (destroy s) = Return tt /\
  destroy s' = (Return tt, s') /\
  (destroyed (this s) = true -> s' = s) /\
  (destroyed (this s) = false ->
     this s' = set_browserWindow None (set_parent None (set_destroyed true (this s))) /\
     calls s' = calls s ++ destroy_calls s /\
     forall pw bw,
       parent (this s) = Some pw -> browserWindow (this s) = Some bw -> pw <> bw ->
       count_call (is_off pw) (destroy_calls s) = (if gone s pw then 0 else 1) /\
       count_call (is_off bw) (destroy_calls s) = (if gone s bw then 0 else 1) /\
       count_call (is_destroy bw) (destroy_calls s) = (if gone s bw then 0 else 1) /\
       gone s' bw = true).
Proof.
  intros Hn s'.
  split; [now apply destroy_iter|].
  split; [apply destroy_returns|].
  split; [apply destroy_again, destroy_destroyed|].
  split.
  - intros Hd. unfold s', exec. now rewrite destroy_again.
  - intros Hd. destruct (destroy_first s Hd) as (s1 & E & T & _ & C & G).
    assert (Hs : s' = s1) by (unfold s', exec; now rewrite E). rewrite Hs.
    split; [exact T|]. split; [exact C|].
    intros pw bw Hp Hb Hne.
    destruct (destroy_calls_counts s pw bw Hp Hb Hne) as (H1 & H2 & H3 & _).
    auto.
Qed.

(** ** Computations that only read *)

Lemma reads_ret {A} (a : A) : reads (ret a).
Proof. now intros s. Qed.
Lemma reads_skip : reads skip.
Proof. now intros s. Qed.
Lemma reads_throw {A} (e : Exception) : reads (@throw A e).
Proof. now intros s. Qed.
Lemma reads_get {A} (f : PopupView -> A) : reads (get f).
Proof. now intros s. Qed.
Lemma reads_object (w : WinId) : reads (object w).
Proof. now intros s. Qed.
Lemma reads_isDestroyed (w : WinId) : reads (isDestroyed w).
Proof. intros s. unfold isDestroyed. now destruct (windows s !! w). Qed.
Lemma reads_native (w : WinId) : reads (native w).
Proof.
  intros s. unfold native. destruct (windows s !! w) as [win|]; [|reflexivity].
  now destruct (win_destroyed win).
Qed.
Lemma reads_bind {A B} (m : M A) (f : A -> M B) :
  reads m -> (forall a, reads (f a)) -> reads (bind m f).
Proof.
  intros Hm Hf s. unfold bind. specialize (Hm s).
  destruct (m s) as [[a|e] s']; cbn in *; subst; [apply Hf|reflexivity].
Qed.
Lemma reads_getBounds (w : WinId) : reads (getBounds w).
Proof. apply reads_bind; [apply reads_native|intros; apply reads_ret]. Qed.
Lemma reads_isDevToolsOpened (w : WinId) : reads (isDevToolsOpened w).
Proof. apply reads_bind; [apply reads_native|intros; apply reads_ret]. Qed.
Lemma reads_getFocusedWindow : reads getFocusedWindow.
Proof. now intros s. Qed.
Lemma reads_defined (w : option WinId) : reads (defined w).
Proof. destruct w; [apply reads_ret|apply reads_throw]. Qed.
Lemma reads_awaited (v : Settled) : reads (awaited v).
Proof. destruct v; [apply reads_ret|apply reads_throw]. Qed.
Lemma reads_prop f (v : Value) : reads (prop f v).
Proof. destruct v; first [apply reads_ret|apply reads_throw]. Qed.

Create HintDb reads.
#[export] Hint Resolve reads_ret reads_skip reads_throw reads_get reads_object reads_isDestroyed
  reads_native reads_getBounds reads_isDevToolsOpened reads_getFocusedWindow
  reads_defined reads_awaited reads_prop : reads.

(** What the calls that write do to the instance and to the log. *)
Lemma setBounds_frame (w : WinId) (r : Rectangle) (s : State) :
  this (snd (setBounds w r s)) = this s /\
  calls (snd (setBounds w r s)) = calls s ++ [CallSetBounds w r].
Proof.
  unfold setBounds, bind, log, native, store. cbn.
  destruct (windows s !! w) as [win|]; [|now cbn].
  now destruct (win_destroyed win).
Qed.

Lemma show_frame (w : WinId) (s : State) :
  this (snd (show w s)) = this s /\
  calls (snd (show w s)) = calls s ++ [CallShow w].
Proof.
  unfold show, bind, log, native, store. cbn.
  destruct (windows s !! w) as [win|]; [|now cbn].
  now destruct (win_destroyed win).
Qed.

Lemma executeJavaScript_frame (w : WinId) (src : Script) (s : State) :
  this (snd (executeJavaScript w src s)) = this s /\
  calls (snd (executeJavaScript w src s)) = calls s ++ [CallExecuteJavaScript w src].
Proof.
  unfold executeJavaScript, bind, log, native, skip, ret. cbn.
  destruct (windows s !! w) as [win|]; [|now cbn].
  now destruct (win_destroyed win).
Qed.

(** ** What every method and every event preserves *)

Lemma preserves_reads (R : State -> State -> Prop) `{!Reflexive R} {A} (m : M A) :
  reads m -> preserves R m.
Proof. intros H s. rewrite H. reflexivity. Qed.

Lemma preserves_bind (R : State -> State -> Prop) `{!Transitive R} {A B}
    (m : M A) (f : A -> M B) :
  preserves R m -> (forall a, preserves R (f a)) -> preserves R (bind m f).
Proof.
  intros Hm Hf s. unfold bind. specialize (Hm s).
  destruct (m s) as [[a|e] s']; cbn in *; [|assumption].
  etransitivity; [eassumption|apply Hf].
Qed.

Ltac preserving :=
  repeat first
    [ progress cbv zeta
    | assumption
    | solve [eauto 2]
    | apply preserves_reads; [typeclasses eauto|solve [auto with reads]]
    | match goal with
      | |- preserves _ (if ?b then _ else _) => destruct b
      | |- preserves _ (match ?x with _ => _ end) => destruct x
      | |- preserves _ (bind _ _) => apply preserves_bind; [typeclasses eauto| |intros ?]
      end ].

Section Preservation.
Context (R : State -> State -> Prop) `{!PreOrder R}.

Hypothesis R_latch : preserves R (assign (set_usingPreferredSize true)).
Hypothesis R_setBounds : forall w r, preserves R (setBounds w r).
Hypothesis R_executeJavaScript : forall w src, preserves R (executeJavaScript w src).
Hypothesis R_destroy : preserves R destroy.
Hypothesis R_focus : forall s f, R s (set_focusedWindow f s).
Hypothesis R_window :
  forall s w win win',
    windows s !! w = Some win ->
    (win_visible win' = true -> win_visible win = true) ->
    R s (set_windows (<[w := win']> (windows s)) s).

Lemma preserves_setSize rect : preserves R (setSize rect).
Proof. unfold setSize. preserving. Qed.

Lemma preserves_updatePosition : preserves R updatePosition.
Proof. unfold updatePosition. preserving. Qed.

Lemma preserves_updatePreferredSize size : preserves R (updatePreferredSize size).
Proof.
  unfold updatePreferredSize.
  pose proof preserves_setSize. pose proof preserves_updatePosition. preserving.
Qed.

Lemma preserves_maybeClose : preserves R maybeClose.
Proof. unfold maybeClose. preserving. Qed.

Lemma preserves_queryPreferredSize_start : preserves R queryPreferredSize_start.
Proof. unfold queryPreferredSize_start. preserving. Qed.

Lemma preserves_queryPreferredSize_resume v : preserves R (queryPreferredSize_resume v).
Proof.
  unfold queryPreferredSize_resume.
  pose proof preserves_setSize. pose proof preserves_updatePosition. preserving.
Qed.

Lemma preserves_close_window w once s : R s (close_window w once s).
Proof.
  unfold close_window. destruct (windows s !! w) as [win|] eqn:Hw; [|reflexivity].
  destruct (win_destroyed win); [reflexivity|].
  cbv zeta.
  match goal with |- R s (Nat.iter _ _ ?x) => remember x as s1 eqn:E end.
  assert (H1 : R s s1) by (rewrite E; now apply (R_window s w win)).
  clear E. induction (closedListeners win) as [|n IH]; [exact H1|].
  etransitivity; [exact IH|apply R_destroy].
Qed.

Lemma preserves_set_devTools w open s : R s (set_devTools w open s).
Proof.
  unfold set_devTools. destruct (windows s !! w) as [win|] eqn:Hw; [|reflexivity].
  destruct (win_destroyed win); [reflexivity|]. now apply (R_window s w win).
Qed.

Lemma preserves_move_window w r s : R s (move_window w r s).
Proof.
  unfold move_window. destruct (windows s !! w) as [win|] eqn:Hw; [|reflexivity].
  destruct (win_destroyed win); [reflexivity|]. now apply (R_window s w win).
Qed.

Lemma preserves_plain e sys :
  plain e = true -> R (state sys) (state (step e sys)).
Proof.
  destruct e; try discriminate; intros _; cbn.
  - apply preserves_updatePreferredSize.
  - apply preserves_set_devTools.
  - etransitivity; [apply preserves_set_devTools|apply preserves_maybeClose].
  - apply preserves_maybeClose.
  - apply R_focus.
  - apply preserves_close_window.
  - apply preserves_close_window.
  - destruct (decide (w = popup sys)); [reflexivity|]. apply preserves_move_window.
  - apply R_destroy.
Qed.

Section WithShow.
Hypothesis R_show : forall w, preserves R (show w).

Lemma preserves_resume t v : preserves R (resume t v).
Proof.
  pose proof preserves_setSize. pose proof preserves_queryPreferredSize_start.
  pose proof preserves_queryPreferredSize_resume.
  destruct t; cbn [resume loadA_resume domReady_resume];
    unfold loadA_after_query, domReady_show; preserving.
Qed.

Lemma preserves_domReady_start : preserves R domReady_start.
Proof.
  pose proof preserves_setSize.
  unfold domReady_start, domReady_show. preserving.
Qed.

Lemma preserves_step e sys : R (state sys) (state (step e sys)).
Proof.
  destruct (plain e) eqn:He; [now apply preserves_plain|].
  destruct e; try discriminate; cbn.
  - destruct (tasks sys !! i) as [[t|]|]; cbn; try reflexivity.
    apply preserves_resume.
  - destruct (variant sys); cbn; [reflexivity|apply preserves_domReady_start].
Qed.

Lemma preserves_run evs sys : R (state sys) (state (run evs sys)).
Proof.
  revert sys. induction evs as [|e evs IH]; intros sys; [reflexivity|].
  cbn. etransitivity; [apply (preserves_step e)|apply IH].
Qed.
End WithShow.
End Preservation.

(** ** The two invariants *)

#[export] Instance keeps_preorder : PreOrder keeps.
Proof.
  split.
  - intros s. now split.
  - intros a b c [A1 A2 A3 A4 A5] [B1 B2 B3 B4 B5].
    split; [congruence|congruence|auto..].
Qed.

Lemma keeps_this (s s' : State) : this s' = this s -> keeps s s'.
Proof. intros H. split; unfold released; rewrite H; auto. Qed.

Lemma keeps_assign_latch : preserves keeps (assign (set_usingPreferredSize true)).
Proof. intros s. split; cbn; auto. Qed.

Lemma keeps_setBounds w r : preserves keeps (setBounds w r).
Proof. intros s. apply keeps_this, setBounds_frame. Qed.

Lemma keeps_executeJavaScript w src : preserves keeps (executeJavaScript w src).
Proof. intros s. apply keeps_this, executeJavaScript_frame. Qed.

Lemma keeps_show w : preserves keeps (show w).
Proof. intros s. apply keeps_this, show_frame. Qed.

Lemma keeps_destroy : preserves keeps destroy.
Proof.
  intros s. destruct (destroyed (this s)) eqn:Hd.
  - rewrite destroy_again by assumption. reflexivity.
  - destruct (destroy_first s Hd) as (s' & E & T & _). rewrite E. cbn.
    split; unfold released; rewrite T; cbn; auto.
Qed.

Lemma keeps_run (evs : list Event) (sys : System) :
  keeps (state sys) (state (run evs sys)).
Proof.
  apply preserves_run; try typeclasses eauto;
    auto using keeps_assign_latch, keeps_setBounds, keeps_executeJavaScript,
      keeps_destroy, keeps_show;
    intros; now apply keeps_this.
Qed.

#[export] Instance quiet_preorder : PreOrder quiet.
Proof.
  split.
  - intros s. split; [|auto]. exists []. now rewrite app_nil_r.
  - intros a b c [(l1 & E1 & F1) V1] [(l2 & E2 & F2) V2]. split; [|auto].
    exists (l1 ++ l2). split.
    + now rewrite E2, E1, app_assoc.
    + now apply Forall_app.
Qed.

Lemma quiet_same (s s' : State) :
  calls s' = calls s -> windows s' = windows s -> quiet s s'.
Proof.
  intros Hc Hw. split.
  - exists []. now rewrite app_nil_r.
  - intros w. unfold visible_of. now rewrite Hw.
Qed.

Lemma quiet_window (s : State) (w : WinId) (win win' : BrowserWindow) :
  windows s !! w = Some win ->
  (win_visible win' = true -> win_visible win = true) ->
  quiet s (set_windows (<[w := win']> (windows s)) s).
Proof.
  intros Hw Hv. split.
  - exists []. now rewrite app_nil_r.
  - intros w'. unfold visible_of. cbn. destruct (decide (w = w')) as [<-|Hne].
    + rewrite list_lookup_insert_eq by (eapply lookup_lt_Some; eassumption).
      rewrite Hw. cbn. intros [= H]. f_equal. auto.
    + now rewrite list_lookup_insert_ne.
Qed.

Lemma quiet_assign f : preserves quiet (assign f).
Proof. intros s. now apply quiet_same. Qed.

Lemma quiet_log c : is_show c = false -> preserves quiet (log c).
Proof.
  intros Hc s. split.
  - exists [c]. auto.
  - intros w. now unfold visible_of.
Qed.

Lemma quiet_store w win' (s : State) (win : BrowserWindow) :
  windows s !! w = Some win ->
  (win_visible win' = true -> win_visible win = true) ->
  quiet s (snd (store w win' s)).
Proof. apply quiet_window. Qed.

(** A logged call that rewrites its live receiver without showing it. *)
Lemma quiet_write (c : Call) (w : WinId) (f : BrowserWindow -> BrowserWindow) :
  is_show c = false ->
  (forall win, win_visible (f win) = true -> win_visible win = true) ->
  preserves quiet (bind (log c) (fun _ => bind (native w) (fun win => store w (f win)))).
Proof.
  intros Hc Hf s. unfold bind, log, native. cbn.
  pose proof (quiet_log c Hc s) as Hl. cbn in Hl.
  destruct (windows s !! w) as [win|] eqn:Hw; [|exact Hl].
  destruct (win_destroyed win); [exact Hl|].
  etransitivity; [exact Hl|]. apply (quiet_store w (f win) _ win); auto.
Qed.

Lemma quiet_setBounds w r : preserves quiet (setBounds w r).
Proof.
  apply (quiet_write _ w (fun win => mkWindow false r (win_visible win)
                                      (win_devTools win) (closedListeners win))); auto.
Qed.

Lemma quiet_closeDevTools w : preserves quiet (closeDevTools w).
Proof.
  apply (quiet_write _ w (fun win => mkWindow false (win_bounds win) (win_visible win)
                                      false (closedListeners win))); auto.
Qed.

Lemma quiet_destroy_window w : preserves quiet (destroy_window w).
Proof.
  apply (quiet_write _ w (fun win => mkWindow true (win_bounds win) false false
                                      (closedListeners win))); auto; discriminate.
Qed.

Lemma quiet_off_closed w : preserves quiet (off_closed w).
Proof.
  intros s. unfold off_closed, bind, log, object, skip, ret. cbn.
  pose proof (quiet_log (CallOffClosed w) eq_refl s) as Hl. cbn in Hl.
  destruct (windows s !! w) as [win|] eqn:Hw; [|exact Hl].
  etransitivity; [exact Hl|]. now apply (quiet_store w _ _ win).
Qed.

Lemma quiet_on_closed w : preserves quiet (on_closed w).
Proof.
  intros s. unfold on_closed, bind, object, skip, ret. cbn.
  destruct (windows s !! w) as [win|] eqn:Hw; [|reflexivity].
  now apply (quiet_store w _ _ win).
Qed.

Lemma quiet_new_BrowserWindow initial : preserves quiet (new_BrowserWindow initial).
Proof.
  intros s. split.
  - exists []. now rewrite app_nil_r.
  - intros w. unfold visible_of. cbn.
    destruct (decide (w < length (windows s))) as [Hlt|Hge].
    + now rewrite lookup_app_l.
    + rewrite lookup_app_r by lia.
      destruct (w - length (windows s)) as [|k]; [discriminate|].
      now destruct k.
Qed.

Lemma quiet_executeJavaScript w src : preserves quiet (executeJavaScript w src).
Proof.
  pose proof (quiet_log (CallExecuteJavaScript w src) eq_refl).
  unfold executeJavaScript. preserving.
Qed.

Lemma quiet_loadURL w url : preserves quiet (loadURL w url).
Proof.
  pose proof (quiet_log (CallLoadURL w url) eq_refl).
  unfold loadURL. preserving.
Qed.

Lemma quiet_destroy : preserves quiet destroy.
Proof.
  pose proof quiet_assign. pose proof quiet_off_closed.
  pose proof quiet_closeDevTools. pose proof quiet_destroy_window.
  unfold destroy. preserving.
Qed.

Lemma quiet_constructor v opts initial : preserves quiet (constructor v opts initial).
Proof.
  pose proof quiet_assign. pose proof quiet_on_closed. pose proof quiet_loadURL.
  pose proof quiet_new_BrowserWindow.
  unfold constructor, loadA_start, loadB_start. preserving.
Qed.

Lemma quiet_plain (e : Event) (sys : System) :
  plain e = true -> quiet (state sys) (state (step e sys)).
Proof.
  apply preserves_plain; try typeclasses eauto;
    first [ apply quiet_assign | apply quiet_setBounds | apply quiet_executeJavaScript
          | apply quiet_destroy | apply quiet_window
          | intros; now apply quiet_same ].
Qed.

Lemma quiet_shows (s s' : State) : quiet s s' -> shows s' = shows s.
Proof.
  intros [(l & Hc & Hl) _]. unfold shows. rewrite Hc, count_call_app.
  assert (H : count_call is_show l = 0).
  { clear Hc. induction Hl as [|c l Hc _ IH]; [reflexivity|].
    unfold count_call in *. cbn. now rewrite Hc. }
  lia.
Qed.

(** ** The live notification *)

Lemma updatePreferredSize_live (size : PartialRectangle) (s : State) (bw pw : WinId)
    (ab : Rectangle) (win : BrowserWindow) :
  browserWindow (this s) = Some bw -> parent (this s) = Some pw ->
  anchorWindowBounds (this s) = Some ab ->
  windows s !! bw = Some win -> win_destroyed win = false ->
  let r1 := with_size (win_bounds win) (num (applied_width size)) (num (applied_height size)) in
  let r2 := with_origin r1 (Math_floor (plus (x ab) (x (anchorRect (this s)))))
              (Math_floor (plus (y ab) (y (anchorRect (this s))))) in
  exists s', updatePreferredSize size s = (Return tt, s') /\
    this s' = set_usingPreferredSize true (this s) /\
    windows s' !! bw = Some (mkWindow false r2 (win_visible win) (win_devTools win)
                               (closedListeners win)) /\
    calls s' = calls s ++ [CallSetBounds bw r1; CallSetBounds bw r2].
Proof.
  intros Hb Hp Ha Hw Hd r1 r2. unfold updatePreferredSize.
  erewrite bind_return by reflexivity.
  set (s1 := set_this (set_usingPreferredSize true) s).
  erewrite bind_return by (apply (setSize_live size s1 bw pw win); auto).
  fold r1.
  match goal with |- context [updatePosition ?x] => set (s2 := x) end.
  assert (Hw2 : windows s2 !! bw =
                Some (mkWindow false r1 (win_visible win) (win_devTools win)
                        (closedListeners win))).
  { subst s2. cbn. apply list_lookup_insert_eq. eapply lookup_lt_Some; eassumption. }
  rewrite (updatePosition_live s2 bw ab _ Hb Ha Hw2 eq_refl).
  eexists; split; [reflexivity|]. cbn. fold r2.
  split; [reflexivity|]. split.
  - rewrite list_insert_insert_eq.
    apply list_lookup_insert_eq. eapply lookup_lt_Some; eassumption.
  - now rewrite <- app_assoc.
Qed.

(** C7, as the code has it.  Every preferred-size notification, in whatever
    state it finds the popup, sets the latch, for good: no later event
    clears it.  None shows the popup: no [show()] is called and no window
    that was hidden becomes visible.  On a popup that holds its live window,
    its parent and its snapshot, the handler returns, the window has the
    notified size, clamped and floored, at the anchored position, and is as
    visible as it was. *)
Theorem updatePreferredSize_applies (s : State) (size : PartialRectangle) :
  let s' := exec (updatePreferredSize size) s in
  usingPreferredSize (this s') = true /\
  (forall sys evs, state sys = s' ->
     usingPreferredSize (this (state (run evs sys))) = true) /\
  count_call is_show (calls s') = count_call is_show (calls s) /\
  (forall w, visible_of s' w = Some true -> visible_of s w = Some true) /\
  forall bw pw ab cur,
    browserWindow (this s) = Some bw ->
    parent (this s) = Some pw ->
    anchorWindowBounds (this s) = Some ab ->
    live s bw ->
    bounds_of s bw = Some cur ->
    fst (updatePreferredSize size s) = Return tt /\
    bounds_of s' bw =
      Some {| x := Math_floor (plus (x ab) (x (anchorRect (this s))));
              y := Math_floor (plus (y ab) (y (anchorRect (this s))));
              width := num (applied_width size);
              height := num (applied_height size) |} /\
    visible_of s' bw = visible_of s bw.
Proof.
  intros s'.
  assert (Hu : usingPreferredSize (this s') = true).
  { unfold s', exec, updatePreferredSize.
    rewrite (bind_return _ _ s (set_this (set_usingPreferredSize true) s) tt)
      by reflexivity.
    assert (P : preserves keeps (setSize size;; updatePosition)%M).
    { apply preserves_bind; [typeclasses eauto| |intros _].
      - apply (preserves_setSize keeps keeps_setBounds).
      - apply (preserves_updatePosition keeps keeps_setBounds). }
    apply (keeps_latch _ _ (P (set_this (set_usingPreferredSize true) s))).
    reflexivity. }
  split; [exact Hu|].
  split.
  { intros sys evs Hs. apply (keeps_latch _ _ (keeps_run evs sys)). now rewrite Hs. }
  pose proof (preserves_updatePreferredSize quiet (quiet_assign _) quiet_setBounds size s)
    as Hq.
  split; [exact (quiet_shows _ _ Hq)|].
  split; [exact (proj2 Hq)|].
  intros bw pw ab cur Hb Hp Ha Hl Hc.
  destruct (live_window s bw Hl) as (win & Hw & Hd).
  unfold bounds_of in Hc. rewrite Hw in Hc. injection Hc as <-.
  destruct (updatePreferredSize_live size s bw pw ab win Hb Hp Ha Hw Hd)
    as (s1 & E & T & W & C).
  assert (Hs : s' = s1) by (unfold s', exec; now rewrite E).
  rewrite E, Hs.
  split; [reflexivity|].
  unfold bounds_of, visible_of. rewrite W, Hw. cbn. auto.
Qed.

(** ** The snapshot of the anchor *)

Ltac crunch :=
  repeat (cbn in *;
          match goal with
          | |- context [match ?x with _ => _ end] =>
              lazymatch x with
              | context [match _ with _ => _ end] => fail
              | _ => destruct x eqn:?
              end
          end);
  cbn in *.

(** What a constructor that returns leaves. *)
Lemma constructor_spec (v : Variant) (opts : PopupViewOptions) (initial : Rectangle)
    (s0 : State) :
  match constructor v opts initial s0 with
  | (Return t, s1) =>
      anchorWindowBounds (this s1) = snapshot_of opts s0 /\
      anchorRect (this s1) = opt_anchorRect opts /\
      destroyed (this s1) = false /\
      browserWindow (this s1) = Some (length (windows s0)) /\
      t = Some (match v with
                | VariantA => LoadA_loadURL (length (windows s0))
                | VariantB => LoadB_loadURL (length (windows s0))
                end)
  | (Throw _, _) => True
  end.
Proof.
  unfold constructor, loadA_start, loadB_start, loadURL, on_closed, new_BrowserWindow,
    getBounds, defined, native, object, store, skip, snapshot_of, bounds_of,
    bind, get, assign, log, ret, throw.
  crunch; auto.
  all: repeat match goal with H : _ !! _ = _ |- _ => rewrite ?H; clear H end; auto.
Qed.

(** The snapshot the constructor leaves, also when it throws further on for
    want of a parent. *)
Lemma constructor_snapshot (v : Variant) (opts : PopupViewOptions) (initial : Rectangle)
    (s0 : State) :
  (forall w, snapshot_source opts = Some w -> live s0 w) ->
  anchorWindowBounds (this (exec (constructor v opts initial) s0)) = snapshot_of opts s0.
Proof.
  intros Hsrc. destruct opts as [id p a url r].
  unfold snapshot_source, snapshot_of, bounds_of, live, gone in *. cbn in Hsrc |- *.
  unfold exec, constructor, loadA_start, loadB_start, loadURL, on_closed,
    new_BrowserWindow, getBounds, defined, native, object, store, skip,
    bind, get, assign, log, ret, throw.
  destruct a as [a|]; [|destruct p as [p|]]; crunch; try reflexivity;
    exfalso; specialize (Hsrc _ eq_refl);
    repeat match goal with
           | H : windows s0 !! _ = _ |- _ => rewrite H in Hsrc; clear H
           end;
    congruence.
Qed.

Lemma new_PopupView_spec (v : Variant) (opts : PopupViewOptions) (initial : Rectangle)
    (s0 : State) (sys : System) :
  new_PopupView v opts initial s0 = Some sys ->
  variant sys = v /\
  popup sys = length (windows s0) /\
  (exists t, tasks sys = [t]) /\
  anchorWindowBounds (this (state sys)) = snapshot_of opts s0 /\
  anchorRect (this (state sys)) = opt_anchorRect opts /\
  destroyed (this (state sys)) = false /\
  quiet s0 (state sys).
Proof.
  unfold new_PopupView. pose proof (constructor_spec v opts initial s0) as H.
  pose proof (quiet_constructor v opts initial s0) as Hq.
  destruct (constructor v opts initial s0) as [[t|e] s1]; [|discriminate].
  destruct H as (H1 & H2 & H3 & H4 & H5).
  rewrite H4.
  destruct (parent (this s1)); [|discriminate].
  intros [= <-]. cbn. eauto 8.
Qed.

(** C9. The constructor takes the snapshot once: the anchor window's bounds
    if there is an anchor, else the parent's bounds if there is a parent,
    else nothing.  No event changes it afterwards, the anchor or the parent
    being moved included, and [updatePosition] places the popup from the
    snapshot: at [Math.floor] of JavaScript's sum of the snapshot's origin
    and the offset's. *)
Theorem anchor_snapshot_fixed (v : Variant) (opts : PopupViewOptions)
    (initial : Rectangle) (s0 : State) :
  ((forall w, snapshot_source opts = Some w -> live s0 w) ->
   anchorWindowBounds (this (exec (constructor v opts initial) s0))
   = snapshot_of opts s0) /\
  forall sys, new_PopupView v opts initial s0 = Some sys ->
    anchorWindowBounds (this (state sys)) = snapshot_of opts s0 /\
    forall evs,
      let s := state (run evs sys) in
      anchorWindowBounds (this s) = snapshot_of opts s0 /\
      forall bw ab cur,
        browserWindow (this s) = Some bw -> live s bw -> bounds_of s bw = Some cur ->
        snapshot_of opts s0 = Some ab ->
        bounds_of (exec updatePosition s) bw =
          Some {| x := Math_floor (plus (x ab) (x (opt_anchorRect opts)));
                  y := Math_floor (plus (y ab) (y (opt_anchorRect opts)));
                  width := width cur;
                  height := height cur |}.
Proof.
  split; [apply constructor_snapshot|].
  intros sys Hnew.
  destruct (new_PopupView_spec v opts initial s0 sys Hnew)
    as (_ & _ & _ & Hs & Hr & _ & _).
  split; [exact Hs|]. intros evs s.
  destruct (keeps_run evs sys) as [K1 K2 _ _ _]. fold s in K1, K2.
  assert (Hs' : anchorWindowBounds (this s) = snapshot_of opts s0) by congruence.
  split; [exact Hs'|].
  intros bw ab cur Hb Hl Hc Hab.
  destruct (live_window s bw Hl) as (win & Hw & Hd).
  unfold bounds_of in Hc. rewrite Hw in Hc. injection Hc as <-.
  rewrite Hab in Hs'.
  unfold exec. rewrite (updatePosition_live s bw ab win Hb Hs' Hw Hd). cbn.
  unfold bounds_of. cbn.
  rewrite list_lookup_insert_eq by (eapply lookup_lt_Some; eassumption).
  cbn. now rewrite K2, Hr.
Qed.

(** ** After destruction *)

Lemma inert (s : State) (rect size : PartialRectangle) :
  browserWindow (this s) = None ->
  setSize rect s = (Return tt, s) /\
  updatePosition s = (Return tt, s) /\
  updatePreferredSize size s = (Return tt, set_this (set_usingPreferredSize true) s).
Proof.
  intros Hb.
  split; [apply setSize_released; auto|].
  split; [apply updatePosition_released; auto|].
  unfold updatePreferredSize.
  erewrite bind_return by reflexivity.
  erewrite bind_return by (apply setSize_released; cbn; auto).
  apply updatePosition_released. cbn. auto.
Qed.

(** C10. Once [destroy()] has run, at once or any number of events later,
    [setSize], [updatePosition] and [updatePreferredSize] return without
    throwing; the first two change nothing at all, the third sets the latch
    and nothing else: no window is touched and no call is made. *)
Theorem after_destroy_inert (s : State) (rect size : PartialRectangle) :
  released s ->
  let s' := exec destroy s in
  destroyed (this s') = true /\
  forall sys evs, state sys = s' ->
    let later := state (run evs sys) in
    setSize rect later = (Return tt, later) /\
    updatePosition later = (Return tt, later) /\
    updatePreferredSize size later
    = (Return tt, set_this (set_usingPreferredSize true) later).
Proof.
  intros Hr s'. split; [apply destroy_destroyed|].
  intros sys evs Hs later. apply inert.
  destruct (keeps_run evs sys) as [_ _ _ Kd Kr]. fold later in Kd, Kr.
  rewrite Hs in Kd, Kr.
  apply Kr.
  - intros _. now apply destroy_released.
  - apply Kd, destroy_destroyed.
Qed.

(** Every state a popup goes through satisfies the premise of C10. *)
Lemma reachable_released (v : Variant) (opts : PopupViewOptions) (initial : Rectangle)
    (s0 : State) (sys : System) (evs : list Event) :
  new_PopupView v opts initial s0 = Some sys -> released (state (run evs sys)).
Proof.
  intros Hnew. apply (keeps_released _ _ (keeps_run evs sys)).
  destruct (new_PopupView_spec v opts initial s0 sys Hnew) as (_ & _ & _ & _ & _ & Hd & _).
  intros H. congruence.
Qed.

(** ** An empty popup *)

Lemma yields_ret (P : option Task -> Prop) (t : option Task) : P t -> yields P (ret t).
Proof. now intros H s. Qed.

Lemma yields_bind {A} (P : option Task -> Prop) (m : M A) (f : A -> M (option Task)) :
  P None -> (forall a, yields P (f a)) -> yields P (bind m f).
Proof.
  intros HN Hf s. unfold bind. destruct (m s) as [[a|e] s']; [apply Hf|exact HN].
Qed.

Ltac yielding :=
  repeat first
    [ progress cbv zeta
    | apply yields_ret; reflexivity
    | match goal with
      | |- yields _ (if ?b then _ else _) => destruct b
      | |- yields _ (match ?x with _ => _ end) => destruct x
      | |- yields _ (bind _ _) => apply yields_bind; [reflexivity|intros ?]
      end ].

(** Past the content check, [load] never waits for it again; nor does any
    task of variant B. *)
Lemma resume_past (t : Task) (v : Settled) :
  (forall w, t <> LoadA_loadURL w) ->
  yields (fun t' => waiting t' = false) (resume t v).
Proof.
  intros Ht. destruct t; try (exfalso; eapply Ht; reflexivity);
    cbn [resume loadA_resume domReady_resume];
    unfold loadA_after_query, domReady_show; yielding.
Qed.

Lemma quiet_resume_loadURL (w : WinId) (v : Settled) :
  preserves quiet (resume (LoadA_loadURL w) v).
Proof.
  cbn [resume loadA_resume].
  pose proof quiet_executeJavaScript. preserving.
Qed.

Lemma resume_empty (w : WinId) (v : Value) (s : State) :
  truthy v = false ->
  resume (LoadA_hasChildNodes w) (Fulfilled v) s = (Return None, exec destroy s).
Proof.
  intros Hv. cbn [resume loadA_resume awaited].
  erewrite bind_return by reflexivity. rewrite Hv. cbn [negb].
  unfold bind, exec. pose proof (destroy_returns s) as H.
  destruct (destroy s) as [[[]|e] s']; [reflexivity|discriminate].
Qed.

Lemma step_settle (sys : System) (i : nat) (t : Task) (v : Settled) :
  tasks sys !! i = Some (Some t) ->
  step (Settle i v) sys =
    with_tasks (<[i := finished (fst (resume t v (state sys)))]> (tasks sys))
      (with_state (snd (resume t v (state sys))) sys).
Proof. intros H. unfold step. now rewrite H. Qed.

Lemma plain_tasks (e : Event) (sys : System) :
  plain e = true -> variant (step e sys) = variant sys /\ tasks (step e sys) = tasks sys.
Proof.
  destruct e; try discriminate; intros _; cbn; auto.
  now destruct (decide (w = popup sys)).
Qed.

Lemma unshown_step (s0 : State) (e : Event) (sys : System) :
  unshown s0 sys -> unshown s0 (step e sys).
Proof.
  intros (Hv & t & Ht & Hq).
  destruct (plain e) eqn:He.
  { destruct (plain_tasks e sys He) as [E1 E2]. split; [congruence|].
    exists t. split; [congruence|]. intros Hw.
    etransitivity; [now apply Hq|now apply quiet_plain]. }
  destruct e; try discriminate; cbn.
  - rewrite Ht. destruct i as [|i]; cbn; [|now split; [|exists t]].
    destruct t as [t|]; [|now split; [|exists None]].
    cbn. split; [assumption|]. eexists. split; [reflexivity|]. cbn.
    destruct (waiting (Some t)) eqn:Hwt.
    + destruct t; try discriminate.
      * intros _. etransitivity; [now apply Hq|apply quiet_resume_loadURL].
      * intros Hw. exfalso.
        pose proof (resume_past (LoadA_hasChildNodes win) v) as Hp.
        rewrite Hp in Hw; [discriminate|]. intros w' [=].
    + intros Hw. exfalso.
      rewrite (resume_past t v) in Hw; [discriminate|].
      intros w' ->. discriminate.
  - rewrite Hv. split; [assumption|]. now exists t.
Qed.

Lemma unshown_run (s0 : State) (evs : list Event) (sys : System) :
  unshown s0 sys -> unshown s0 (run evs sys).
Proof.
  revert sys. induction evs as [|e evs IH]; intros sys H; [exact H|].
  cbn. apply IH, unshown_step, H.
Qed.

Lemma over_step (e : Event) (sys : System) :
  over sys -> over (step e sys) /\ quiet (state sys) (state (step e sys)).
Proof.
  intros [Hv Ht]. destruct (plain e) eqn:He.
  { destruct (plain_tasks e sys He) as [E1 E2].
    split; [split; congruence|now apply quiet_plain]. }
  destruct e; try discriminate; cbn.
  - rewrite Ht. destruct i as [|i]; cbn; (split; [now split|reflexivity]).
  - rewrite Hv. split; [now split|reflexivity].
Qed.

Lemma over_run (evs : list Event) (sys : System) :
  over sys -> quiet (state sys) (state (run evs sys)).
Proof.
  revert sys. induction evs as [|e evs IH]; intros sys H; [reflexivity|].
  cbn. destruct (over_step e sys H) as [H1 H2].
  etransitivity; [exact H2|now apply IH].
Qed.

(** C8. Variant A: when the load has completed and the content check finds
    a body without child nodes, the popup is destroyed in that very turn of
    the event loop and stays destroyed; from its construction on no [show()]
    is ever called, and the window, created hidden, is never visible. *)
Theorem empty_popup_never_shown (opts : PopupViewOptions) (initial : Rectangle)
    (s0 : State) (sys : System) (pre : list Event) (w : WinId) (v : Value) :
  new_PopupView VariantA opts initial s0 = Some sys ->
  tasks (run pre sys) !! 0 = Some (Some (LoadA_hasChildNodes w)) ->
  truthy v = false ->
  let checked := step (Settle 0 (Fulfilled v)) (run pre sys) in
  destroyed (this (state checked)) = true /\
  forall post,
    let final := state (run post checked) in
    destroyed (this final) = true /\
    (exists l, calls final = calls s0 ++ l /\ Forall (fun c => is_show c = false) l) /\
    visible_of final (popup sys) <> Some true.
Proof.
  intros Hnew Htask Hv checked.
  destruct (new_PopupView_spec _ _ _ _ _ Hnew)
    as (Hvar & Hpop & (t0 & Ht0) & _ & _ & _ & Hq0).
  assert (H0 : unshown s0 sys).
  { split; [assumption|]. exists t0. split; [assumption|]. now intros _. }
  destruct (unshown_run s0 pre sys H0) as (Hv1 & t1 & Ht1 & Hq1).
  assert (Hchecked : checked =
    mkSystem (variant (run pre sys)) (popup (run pre sys)) (owner (run pre sys))
      (exec destroy (state (run pre sys))) [None]).
  { unfold checked. rewrite (step_settle _ _ _ _ Htask), resume_empty by assumption.
    rewrite Ht1. reflexivity. }
  rewrite Ht1 in Htask. injection Htask as ->.
  assert (Hd : destroyed (this (state checked)) = true).
  { rewrite Hchecked. apply destroy_destroyed. }
  split; [exact Hd|]. intros post final.
  assert (Hq : quiet s0 final).
  { etransitivity; [now apply Hq1|].
    etransitivity; [|apply over_run; rewrite Hchecked; now split].
    rewrite Hchecked. apply quiet_destroy. }
  split; [now apply (keeps_destroyed _ _ (keeps_run post checked))|].
  split; [exact (proj1 Hq)|].
  intros Hvis. apply (proj2 Hq) in Hvis. rewrite Hpop in Hvis.
  unfold visible_of in Hvis. now rewrite lookup_ge_None_2 in Hvis.
Qed.

(** ** The scenarios *)

Lemma popupA_new : new_PopupView VariantA options fresh_bounds before = Some popupA.
Proof. reflexivity. Qed.

Lemma popupB_new : new_PopupView VariantB options fresh_bounds before = Some popupB.
Proof. reflexivity. Qed.

(** A measured content box of 900 by 10 is applied as 800 by 25. *)
Lemma setSize_clamped_example :
  bounds_of (exec (setSize (Size (num 900) (num 10))) (state popupA)) 1
  = Some (placed 0 0 800 25).
Proof.
  exact (proj1 (proj2 (proj2 (proj2
    (setSize_clamped (state popupA) (Size (num 900) (num 10)) 1 0 fresh_bounds
       eq_refl eq_refl eq_refl eq_refl))))).
Defined.

(** Anchor bounds at (100, 50) and an offset at (10, 20) put the popup at
    (110, 70).  With the offset (0.9999999999999999, 20.5) it is put at
    (101, 70): 100.9999999999999999 is no double and rounds to 101 before
    the floor, 70.5 is one and is floored. *)
Lemma updatePosition_anchored_example :
  bounds_of (exec updatePosition (state popupA)) 1 = Some (placed 110 70 800 600) /\
  bounds_of (exec updatePosition (state popupS)) 1 = Some (placed 101 70 800 600).
Proof.
  split.
  - exact (proj2 (updatePosition_anchored (state popupA) 1 (placed 100 50 1024 768)
                    fresh_bounds eq_refl eq_refl eq_refl eq_refl)).
  - exact (proj2 (updatePosition_anchored (state popupS) 1 (placed 100 50 1024 768)
                    fresh_bounds eq_refl eq_refl eq_refl eq_refl)).
Defined.

(** With the devtools open nothing is closed; with the focus outside the
    application nothing is closed; otherwise the popup is destroyed. *)
Lemma maybeClose_policy_example :
  let inspecting := state (step DevToolsOpened popupA) in
  let outside := state (step (Focus None) popupA) in
  exec maybeClose inspecting = inspecting /\
  exec maybeClose outside = outside /\
  destroyed (this (exec maybeClose (state popupA))) = true.
Proof.
  intros inspecting outside.
  split; [exact (proj1 (proj2 (maybeClose_policy inspecting)) eq_refl)|].
  split; [exact (proj1 (proj2 (proj2 (maybeClose_policy outside))) eq_refl)|].
  refine (proj2 (proj2 (proj2 (proj2 (maybeClose_policy (state popupA)))) eq_refl _)).
  discriminate.
Defined.

Lemma released_popupA : released (state popupA).
Proof. discriminate. Defined.

Lemma after_destroy_inert_example :
  let s' := exec destroy (state popupA) in
  let later := state (run [Moved 0 (placed 500 400 1024 768)] (with_state s' popupA)) in
  destroyed (this s') = true /\
  setSize minimum later = (Return tt, later) /\
  updatePosition later = (Return tt, later) /\
  updatePreferredSize (Size (num 300) (num 200)) later
  = (Return tt, set_this (set_usingPreferredSize true) later).
Proof.
  intros s' later.
  destruct (after_destroy_inert (state popupA) minimum (Size (num 300) (num 200))
              released_popupA) as [H1 H2].
  split; [exact H1|].
  apply (H2 (with_state s' popupA) [Moved 0 (placed 500 400 1024 768)]).
  reflexivity.
Defined.

(** Three calls of [destroy()] on the fresh popup: one unsubscription from
    the parent, one from the window, one destruction. *)
Lemma destroy_idempotent_example :
  calls (Nat.iter 3 (exec destroy) (state popupA))
  = calls (state popupA) ++ [CallOffClosed 0; CallOffClosed 1; CallDestroy 1].
Proof.
  pose proof (destroy_idempotent (state popupA) 3 (le_S _ _ (le_S _ _ (le_n 1)))) as H.
  cbv zeta in H. destruct H as (H1 & _ & _ & _ & H2).
  rewrite H1. exact (proj1 (proj2 (H2 eq_refl))).
Defined.

(** The claim of C3 read literally fails when the popup's window was closed
    from outside: the first [destroy()] sets the flag and clears the
    references, but neither unsubscribes from the window nor destroys it. *)
Lemma destroy_leaves_closed_window :
  destroyed (this popup_closed) = false /\
  state (step Closed popupA) = exec destroy popup_closed /\
  let s' := exec destroy popup_closed in
  destroyed (this s') = true /\
  count_call (is_off 1) (calls s') = 0 /\
  count_call (is_destroy 1) (calls s') = 0 /\
  closedListeners <$> windows s' !! 1 = Some 1.
Proof. vm_compute. repeat split; reflexivity. Qed.

(** The claim of C7 fails on a popup not yet shown: the notification sizes
    and places it, and leaves it hidden. *)
Lemma notification_does_not_show :
  let s' := exec (updatePreferredSize (Size (num 300) (num 200))) (state popupA) in
  visible_of (state popupA) 1 = Some false /\
  usingPreferredSize (this s') = true /\
  bounds_of s' 1 = Some (placed 110 70 300 200) /\
  visible_of s' 1 = Some false /\
  count_call is_show (calls s') = 0.
Proof. vm_compute. repeat split; reflexivity. Qed.

(** A notification of 900 by 10 on the popup whose offset lies between the
    pixels: 800 by 25 at (101, 70), still hidden, the latch set for good.
    On the popup once destroyed it sets the latch and nothing else. *)
Lemma updatePreferredSize_applies_example :
  let s' := exec (updatePreferredSize (Size (num 900) (num 10))) (state popupS) in
  let gone' := exec (updatePreferredSize (Size (num 900) (num 10)))
                 (exec destroy (state popupS)) in
  fst (updatePreferredSize (Size (num 900) (num 10)) (state popupS)) = Return tt /\
  bounds_of s' 1 = Some (placed 101 70 800 25) /\
  visible_of s' 1 = Some false /\
  usingPreferredSize (this (state (run [DomReady; Blur; Destroy]
                                     (with_state s' popupS)))) = true /\
  usingPreferredSize (this gone') = true /\
  count_call is_show (calls gone') = count_call is_show (calls (exec destroy (state popupS))).
Proof.
  intros s' gone'.
  pose proof (updatePreferredSize_applies (state popupS) (Size (num 900) (num 10))) as H.
  cbv zeta in H. destruct H as (_ & H2 & _ & _ & H5).
  destruct (H5 1 0 (placed 100 50 1024 768) fresh_bounds
              eq_refl eq_refl eq_refl eq_refl eq_refl) as (R1 & R2 & R3).
  split; [exact R1|]. split; [exact R2|]. split; [exact R3|].
  split; [exact (H2 (with_state _ popupS) _ eq_refl)|].
  pose proof (updatePreferredSize_applies (exec destroy (state popupS))
                (Size (num 900) (num 10))) as G.
  cbv zeta in G. destruct G as (G1 & _ & G3 & _).
  split; [exact G1|exact G3].
Defined.

(** The main window is moved after the construction: the snapshot stays
    (100, 50), and the popup is placed from it, at (110, 70); with the
    offset (0.9999999999999999, 20.5) at (101, 70). *)
Lemma anchor_snapshot_fixed_example :
  let moved := run [Moved 0 (placed 500 400 1024 768); PreferredSizeChanged (num 300) (num 200)]
                 popupA in
  let movedS := run [Moved 0 (placed 500 400 1024 768)] popupS in
  anchorWindowBounds (this (exec (constructor VariantA orphan fresh_bounds) before)) = None /\
  anchorWindowBounds (this (state popupA)) = Some (placed 100 50 1024 768) /\
  bounds_of (state moved) 0 = Some (placed 500 400 1024 768) /\
  anchorWindowBounds (this (state moved)) = Some (placed 100 50 1024 768) /\
  bounds_of (exec updatePosition (state moved)) 1 = Some (placed 110 70 300 200) /\
  bounds_of (exec updatePosition (state movedS)) 1 = Some (placed 101 70 800 600).
Proof.
  intros moved movedS.
  split.
  { apply (proj1 (anchor_snapshot_fixed VariantA orphan fresh_bounds before)).
    intros w H. discriminate H. }
  split.
  { apply (proj1 (anchor_snapshot_fixed VariantA options fresh_bounds before)).
    intros w H. injection H as <-. reflexivity. }
  split; [reflexivity|].
  pose proof (proj2 (anchor_snapshot_fixed VariantA options fresh_bounds before)
                popupA eq_refl) as [_ H].
  specialize (H [Moved 0 (placed 500 400 1024 768);
                 PreferredSizeChanged (num 300) (num 200)]).
  cbv zeta in H. destruct H as [H1 H2].
  split; [exact H1|].
  split.
  { exact (H2 1 (placed 100 50 1024 768) (placed 110 70 300 200)
             eq_refl eq_refl eq_refl eq_refl). }
  pose proof (proj2 (anchor_snapshot_fixed VariantA subpixel fresh_bounds before)
                popupS eq_refl) as [_ S].
  specialize (S [Moved 0 (placed 500 400 1024 768)]).
  cbv zeta in S. destruct S as [_ S2].
  exact (S2 1 (placed 100 50 1024 768) fresh_bounds eq_refl eq_refl eq_refl eq_refl).
Defined.

Lemma empty_popup_never_shown_example :
  let checked := run [Settle 0 (Fulfilled VUndefined); Settle 0 (Fulfilled (VBool false))]
                   popupA in
  let final := state (run [DomReady; PreferredSizeChanged (num 300) (num 200);
                           Settle 0 (Fulfilled VUndefined)] checked) in
  destroyed (this (state checked)) = true /\
  count_call is_show (calls final) = 0 /\
  visible_of final 1 <> Some true.
Proof.
  intros checked final.
  destruct (empty_popup_never_shown options fresh_bounds before popupA
              [Settle 0 (Fulfilled VUndefined)] 1 (VBool false)
              eq_refl eq_refl eq_refl) as [H1 H2].
  split; [exact H1|]. split; [reflexivity|].
  exact (proj2 (proj2 (H2 [DomReady; PreferredSizeChanged (num 300) (num 200);
                           Settle 0 (Fulfilled VUndefined)]))).
Defined.

(** ** Where the polling path and the live path meet *)

(** The guard of [queryPreferredSize]: once the latch is set, a measurement
    that starts evaluates nothing and changes nothing. *)
Lemma queryPreferredSize_latched (s : State) :
  usingPreferredSize (this s) = true ->
  queryPreferredSize_start s = (Return false, s).
Proof.
  intros H. unfold queryPreferredSize_start, bind, get. cbn. now rewrite H.
Qed.

(** C2 fails on the code.  A measurement is suspended at its script
    evaluation; a live notification sets the latch and sizes the popup to
    300 by 200; the evaluation then resolves with 100 by 100, and the
    continuation, which re-checks [destroyed] only, applies it over the live
    size. *)
Theorem stale_measurement_overwrites_live_size :
  tasks polling !! 0 = Some (Some (LoadA_query 1)) /\
  let notified := step (PreferredSizeChanged (num 300) (num 200)) polling in
  usingPreferredSize (this (state notified)) = true /\
  bounds_of (state notified) 1 = Some (placed 110 70 300 200) /\
  let resumed :=
    step (Settle 0 (Fulfilled (VObject (Size (num 100) (num 100))))) notified in
  usingPreferredSize (this (state resumed)) = true /\
  bounds_of (state resumed) 1 = Some (placed 110 70 100 100).
Proof. vm_compute. repeat split; reflexivity. Qed.

(** ** Resuming after destruction *)

(** The continuations of variant A's [load] that do look at [destroyed]:
    after the load, after the settle delay and after the measurement they
    end at once, the state untouched. *)
Lemma load_rechecks_destroyed (t : Task) (v : Settled) (s : State) :
  destroyed (this s) = true ->
  (exists w, t = LoadA_loadURL w \/ t = LoadA_timeout w \/ t = LoadA_query w) ->
  snd (resume t v s) = s /\ finished (fst (resume t v s)) = None.
Proof.
  intros Hd (w & [-> | [-> | ->]]); cbn [resume loadA_resume];
    unfold queryPreferredSize_resume, loadA_after_query, bind, get, awaited, throw, ret, skip;
    destruct v; cbn; rewrite ?Hd; cbn; rewrite ?Hd; auto.
Qed.

(** C4 fails on the code.  Variant B: the popup is destroyed during the
    settle delay of [domReady]; the resumed handler does not look at
    [destroyed] and calls [show()] on the destroyed window.  Variant A: the
    continuation of the content check does not look at [destroyed] either,
    and with the latch set it goes on to [show()]. *)
Theorem resumed_after_destroy_shows :
  (let closed := run [DomReady; Blur] popupB in
   let resumed := step (Settle 1 (Fulfilled VUndefined)) closed in
   tasks closed !! 1 = Some (Some (DomReady_timeout (Some 1))) /\
   destroyed (this (state closed)) = true /\
   gone (state closed) 1 = true /\
   calls (state resumed) = calls (state closed) ++ [CallShow 1]) /\
  (let closed := run [Settle 0 (Fulfilled VUndefined);
                      PreferredSizeChanged (num 300) (num 200); Blur] popupA in
   let resumed := step (Settle 0 (Fulfilled (VBool true))) closed in
   tasks closed !! 0 = Some (Some (LoadA_hasChildNodes 1)) /\
   destroyed (this (state closed)) = true /\
   gone (state closed) 1 = true /\
   calls (state resumed) = calls (state closed) ++ [CallShow 1]).
Proof. vm_compute. repeat split; reflexivity. Qed.

(** ** The invariant of a popup *)

Lemma listeners_flag (s : State) (w : WinId) :
  listeners s w = default 0 (closedListeners <$> windows s !! w).
Proof. unfold listeners. now destruct (windows s !! w). Qed.

#[export] Instance steady_preorder : PreOrder steady.
Proof.
  split.
  - intros s. now repeat split.
  - intros a b c (A1 & A2 & A3 & A4) (B1 & B2 & B3 & B4).
    repeat split; try congruence.
    + rewrite (proj1 (B4 w)). apply A4.
    + rewrite (proj2 (B4 w)). apply A4.
Qed.

Lemma steady_sound (p o : WinId) (s s' : State) :
  steady s s' -> sound p o s -> sound p o s'.
Proof.
  intros (H1 & H2 & H3 & H4) [S1 S2]. unfold sound, live.
  rewrite H1, H2, H3, (proj1 (H4 p)), (proj2 (H4 p)), (proj1 (H4 o)), (proj2 (H4 o)).
  now split.
Qed.

#[export] Instance stays_sound_preorder (p o : WinId) : PreOrder (stays_sound p o).
Proof. split; unfold stays_sound; [intros s; auto|intros a b c; auto]. Qed.

Lemma steady_windows (s s' : State) :
  this s' = this s ->
  (forall w, win_destroyed <$> windows s' !! w = win_destroyed <$> windows s !! w) ->
  (forall w, closedListeners <$> windows s' !! w = closedListeners <$> windows s !! w) ->
  steady s s'.
Proof.
  intros Ht Hd Hl. unfold steady. rewrite Ht. repeat split.
  - now rewrite !gone_flag, Hd.
  - now rewrite !listeners_flag, Hl.
Qed.

Lemma steady_this (s s' : State) :
  destroyed (this s') = destroyed (this s) ->
  browserWindow (this s') = browserWindow (this s) ->
  parent (this s') = parent (this s) ->
  windows s' = windows s ->
  steady s s'.
Proof.
  intros H1 H2 H3 H4. unfold steady, gone, listeners. rewrite H1, H2, H3, H4. auto.
Qed.

(** A window is rewritten, still live and as subscribed as it was. *)
Lemma steady_window (s : State) (w : WinId) (win win' : BrowserWindow) :
  windows s !! w = Some win ->
  win_destroyed win' = win_destroyed win ->
  closedListeners win' = closedListeners win ->
  steady s (set_windows (<[w := win']> (windows s)) s).
Proof.
  intros Hw Hd Hl. apply steady_windows; [reflexivity|..]; intros w'; cbn.
  - now apply (insert_flag win_destroyed _ _ _ win).
  - now apply (insert_flag closedListeners _ _ _ win).
Qed.

Lemma steady_write (c : Call) (w : WinId) (f : BrowserWindow -> BrowserWindow) :
  (forall win, win_destroyed win = false ->
     win_destroyed (f win) = false /\ closedListeners (f win) = closedListeners win) ->
  preserves steady (bind (log c) (fun _ => bind (native w) (fun win => store w (f win)))).
Proof.
  intros Hf s. unfold bind, log, native. cbn.
  assert (Hl : steady s (add_call c s)) by now apply steady_this.
  destruct (windows s !! w) as [win|] eqn:Hw; [|exact Hl].
  destruct (win_destroyed win) eqn:Hd; [exact Hl|].
  etransitivity; [exact Hl|]. cbn.
  destruct (Hf win Hd) as [H1 H2].
  apply (steady_window (add_call c s) w win); [assumption|congruence|assumption].
Qed.

Lemma steady_setBounds w r : preserves steady (setBounds w r).
Proof.
  apply (steady_write _ w (fun win => mkWindow false r (win_visible win)
                                       (win_devTools win) (closedListeners win))); auto.
Qed.

Lemma steady_show w : preserves steady (show w).
Proof.
  apply (steady_write _ w (fun win => mkWindow false (win_bounds win) true
                                       (win_devTools win) (closedListeners win))); auto.
Qed.

Lemma steady_executeJavaScript w src : preserves steady (executeJavaScript w src).
Proof.
  intros s. apply steady_this; try apply executeJavaScript_frame;
    rewrite ?(proj1 (executeJavaScript_frame w src s)); try reflexivity.
  unfold executeJavaScript, bind, log, native, skip, ret. cbn.
  destruct (windows s !! w) as [win|]; [|reflexivity]. now destruct (win_destroyed win).
Qed.

Lemma steady_latch : preserves steady (assign (set_usingPreferredSize true)).
Proof. intros s. now apply steady_this. Qed.

Lemma steady_set_devTools w open s : steady s (set_devTools w open s).
Proof.
  unfold set_devTools. destruct (windows s !! w) as [win|] eqn:Hw; [|reflexivity].
  destruct (win_destroyed win) eqn:Hd; [reflexivity|].
  now apply (steady_window s w win).
Qed.

Lemma steady_move_window w r s : steady s (move_window w r s).
Proof.
  unfold move_window. destruct (windows s !! w) as [win|] eqn:Hw; [|reflexivity].
  destruct (win_destroyed win) eqn:Hd; [reflexivity|].
  now apply (steady_window s w win).
Qed.

Lemma sound_held (p o : WinId) (s : State) : sound p o s -> held p o s.
Proof. intros [S1 S2]. split; [|exact S2]. intros Hd. now destruct (S1 Hd) as (? & ? & _). Qed.

Lemma destroy_sound (p o : WinId) (s : State) : held p o s -> sound p o (exec destroy s).
Proof.
  intros [H1 H2]. unfold exec. destruct (destroyed (this s)) eqn:Hd.
  - rewrite destroy_again by assumption. cbn. split; [congruence|auto].
  - destruct (destroy_first s Hd) as (s' & E & T & _ & _ & G). rewrite E. cbn.
    split; rewrite T; cbn; [discriminate|]. intros _.
    destruct (H1 eq_refl) as [Hb _]. auto.
Qed.

Lemma stays_sound_steady (p o : WinId) {A} (m : M A) :
  preserves steady m -> preserves (stays_sound p o) m.
Proof. intros H s Hs. eapply steady_sound; [apply H|exact Hs]. Qed.

Lemma stays_sound_destroy (p o : WinId) : preserves (stays_sound p o) destroy.
Proof. intros s Hs. now apply destroy_sound, sound_held. Qed.

Lemma mark_gone (s : State) (w : WinId) (win : BrowserWindow) (b : Rectangle) (k : nat) :
  windows s !! w = Some win ->
  let s1 := set_windows (<[w := mkWindow true b false false k]> (windows s)) s in
  gone s1 w = true /\ listeners s1 w = k /\
  forall w', w' <> w -> gone s1 w' = gone s w' /\ listeners s1 w' = listeners s w'.
Proof.
  intros Hw s1. unfold gone, listeners. cbn.
  rewrite list_lookup_insert_eq by (eapply lookup_lt_Some; eassumption).
  repeat split; now rewrite list_lookup_insert_ne by congruence.
Qed.

Lemma close_window_sound (p o w : WinId) (once : bool) (s : State) :
  sound p o s -> sound p o (close_window w once s).
Proof.
  intros Hs. unfold close_window.
  destruct (windows s !! w) as [win|] eqn:Hw; [|exact Hs].
  destruct (win_destroyed win) eqn:Hd; [exact Hs|]. cbv zeta.
  match goal with |- sound p o (Nat.iter _ _ ?x) => set (s1 := x) end.
  destruct (mark_gone s w win (win_bounds win)
              (if once then 0 else closedListeners win) Hw) as (G & _ & F).
  fold s1 in G, F.
  assert (Hlive : live s w) by (unfold live, gone; now rewrite Hw).
  assert (Hn : listeners s w = closedListeners win) by (unfold listeners; now rewrite Hw).
  destruct Hs as [S1 S2].
  assert (Hheld : held p o s1).
  { split; [intros Hx; now destruct (S1 Hx) as (? & ? & _)|].
    intros Hx. destruct (S2 Hx) as (? & ? & Hg). repeat split; try assumption.
    destruct (decide (p = w)) as [->|Hne]; [exact G|]. now rewrite (proj1 (F p Hne)). }
  destruct (closedListeners win) as [|n] eqn:Hc.
  - cbn. split; [|apply Hheld]. intros Hx.
    destruct (S1 Hx) as (Hb & Hp & Hl & Hk & Ho).
    assert (Hpw : p <> w) by (intros ->; lia).
    unfold live in *. rewrite (proj1 (F p Hpw)), (proj2 (F p Hpw)).
    repeat split; try assumption.
    destruct (decide (o = w)) as [->|How]; [congruence|].
    now rewrite (proj1 (F o How)), (proj2 (F o How)).
  - rewrite destroy_iter by lia. now apply destroy_sound.
Qed.

Lemma step_ids (e : Event) (sys : System) :
  popup (step e sys) = popup sys /\ owner (step e sys) = owner sys /\
  variant (step e sys) = variant sys.
Proof.
  destruct e; unfold step, handle, with_tasks, with_state;
    repeat match goal with
           | |- context [match ?x with _ => _ end] => destruct x eqn:?
           end; auto.
Qed.

Lemma run_ids (evs : list Event) (sys : System) :
  popup (run evs sys) = popup sys /\ owner (run evs sys) = owner sys /\
  variant (run evs sys) = variant sys.
Proof.
  revert sys. induction evs as [|e evs IH]; intros sys; [auto|].
  change (run (e :: evs) sys) with (run evs (step e sys)).
  destruct (IH (step e sys)) as (-> & -> & ->). apply step_ids.
Qed.

Lemma sound_step (p o : WinId) (e : Event) (sys : System) :
  sound p o (state sys) -> sound p o (state (step e sys)).
Proof.
  assert (L : preserves (stays_sound p o) (assign (set_usingPreferredSize true)))
    by apply stays_sound_steady, steady_latch.
  assert (B : forall w r, preserves (stays_sound p o) (setBounds w r))
    by (intros; apply stays_sound_steady, steady_setBounds).
  assert (J : forall w src, preserves (stays_sound p o) (executeJavaScript w src))
    by (intros; apply stays_sound_steady, steady_executeJavaScript).
  assert (S : forall w, preserves (stays_sound p o) (show w))
    by (intros; apply stays_sound_steady, steady_show).
  pose proof (stays_sound_destroy p o) as D.
  intros Hs. destruct e; cbn.
  - destruct (tasks sys !! i) as [[t|]|]; cbn; try exact Hs.
    now apply (preserves_resume (stays_sound p o)).
  - now apply (preserves_updatePreferredSize (stays_sound p o)).
  - destruct (variant sys); cbn; [exact Hs|].
    now apply (preserves_domReady_start (stays_sound p o)).
  - eapply steady_sound; [apply steady_set_devTools|exact Hs].
  - apply (preserves_maybeClose (stays_sound p o) D).
    eapply steady_sound; [apply steady_set_devTools|exact Hs].
  - now apply (preserves_maybeClose (stays_sound p o)).
  - eapply steady_sound; [|exact Hs]. now apply steady_this.
  - now apply close_window_sound.
  - now apply close_window_sound.
  - destruct (decide (w = popup sys)); [exact Hs|]. cbn.
    eapply steady_sound; [apply steady_move_window|exact Hs].
  - now apply D.
Qed.

Lemma sound_run (p o : WinId) (evs : list Event) (sys : System) :
  sound p o (state sys) -> sound p o (state (run evs sys)).
Proof.
  revert sys. induction evs as [|e evs IH]; intros sys H; [exact H|].
  cbn. apply IH, sound_step, H.
Qed.

(** ** The constructor, step by step *)

Lemma on_closed_subscribed (w : WinId) (s : State) :
  on_closed w s = (Return tt, set_windows (subscribed w (windows s)) s).
Proof.
  unfold on_closed, subscribed, bind, object, store, skip, ret. cbn.
  destruct (windows s !! w); [reflexivity|]. now destruct s.
Qed.

Lemma lookup_subscribed (w w' : WinId) (ws : list BrowserWindow) :
  subscribed w ws !! w' =
    if decide (w = w')
    then (fun win => mkWindow (win_destroyed win) (win_bounds win) (win_visible win)
                       (win_devTools win) (S (closedListeners win))) <$> ws !! w'
    else ws !! w'.
Proof.
  unfold subscribed. destruct (decide (w = w')) as [<-|Hne].
  - destruct (ws !! w) as [win|] eqn:Hw; [|now rewrite Hw].
    now rewrite list_lookup_insert_eq by (eapply lookup_lt_Some; eassumption).
  - destruct (ws !! w); [|reflexivity]. now rewrite list_lookup_insert_ne.
Qed.

Lemma lookup_created (ws : list BrowserWindow) (win : BrowserWindow) :
  (ws ++ [win]) !! length ws = Some win.
Proof. rewrite lookup_app_r by lia. now rewrite Nat.sub_diag. Qed.

Lemma constructor_live (v : Variant) (opts : PopupViewOptions) (initial : Rectangle)
    (pw : WinId) (s0 : State) :
  (forall w, snapshot_source opts = Some w -> live s0 w) ->
  opt_parent opts = Some pw ->
  constructor v opts initial s0
  = (Return (Some (loading v (length (windows s0)))), constructed opts initial pw s0).
Proof.
  intros Hsrc Hp. unfold constructor.
  erewrite bind_return by reflexivity.
  erewrite bind_return by reflexivity.
  erewrite bind_return by reflexivity.
  cbn [this set_this anchorWindow parent].
  match goal with |- bind ?m _ ?s = _ =>
    assert (Hsnap : m s = (Return (snapshot_of opts s0), s))
  end.
  { unfold snapshot_of, snapshot_source, bounds_of in *.
    destruct (opt_anchorWindow opts) as [aw|].
    - destruct (live_window s0 aw (Hsrc aw eq_refl)) as (win & Hw & Hd).
      rewrite Hw. cbn.
      erewrite bind_return by (apply (getBounds_live _ _ win); [exact Hw|exact Hd]).
      reflexivity.
    - rewrite Hp. destruct (live_window s0 pw (Hsrc pw Hp)) as (win & Hw & Hd).
      rewrite Hw. cbn.
      erewrite bind_return by (apply (getBounds_live _ _ win); [exact Hw|exact Hd]).
      reflexivity. }
  rewrite (bind_return _ _ _ _ _ Hsnap).
  erewrite bind_return by reflexivity.
  erewrite bind_return by reflexivity.
  erewrite bind_return by reflexivity.
  erewrite bind_return by apply on_closed_subscribed.
  erewrite bind_return by (unfold get; cbn; rewrite Hp; reflexivity).
  erewrite bind_return by reflexivity.
  erewrite bind_return by apply on_closed_subscribed.
  cbn [windows set_windows set_this this].
  set (n := length (windows s0)).
  match goal with |- _ ?s = _ => set (s1 := s) end.
  assert (Hload : loadURL n (opt_url opts) s1
                  = (Return tt, add_call (CallLoadURL n (opt_url opts)) s1)).
  { unfold loadURL, bind, log, native, skip, ret. subst s1 n. cbn.
    rewrite !lookup_subscribed, lookup_created. cbn.
    now repeat case_decide. }
  destruct v; unfold loadA_start, loadB_start;
    (erewrite bind_return by reflexivity);
    (erewrite bind_return by reflexivity);
    rewrite (bind_return _ _ _ _ _ Hload); reflexivity.
Qed.

Lemma constructor_returned (v : Variant) (opts : PopupViewOptions) (initial : Rectangle)
    (s0 : State) :
  match constructor v opts initial s0 with
  | (Return _, _) =>
      (forall w, snapshot_source opts = Some w -> live s0 w) /\
      exists pw, opt_parent opts = Some pw
  | (Throw _, _) => True
  end.
Proof.
  destruct opts as [id p a url r].
  unfold constructor, loadA_start, loadB_start, loadURL, on_closed, new_BrowserWindow,
    getBounds, defined, native, object, store, skip, snapshot_source, live, gone,
    bind, get, assign, log, ret, throw.
  crunch; auto; (split; [|eauto]); intros ? [= <-];
    repeat match goal with H : windows s0 !! _ = _ |- _ => rewrite H; clear H end;
    auto.
Qed.

Lemma new_PopupView_constructed (v : Variant) (opts : PopupViewOptions)
    (initial : Rectangle) (s0 : State) (sys : System) :
  new_PopupView v opts initial s0 = Some sys ->
  exists pw,
    opt_parent opts = Some pw /\
    (forall w, snapshot_source opts = Some w -> live s0 w) /\
    sys = mkSystem v (length (windows s0)) pw (constructed opts initial pw s0)
            [Some (loading v (length (windows s0)))].
Proof.
  unfold new_PopupView. pose proof (constructor_returned v opts initial s0) as H.
  destruct (constructor v opts initial s0) as [[t|e] s1] eqn:E; [|discriminate].
  destruct H as (Hsrc & pw & Hp).
  rewrite (constructor_live v opts initial pw s0 Hsrc Hp) in E.
  injection E as <- <-. cbn. intros [= <-]. eauto.
Qed.

Lemma constructed_sound (opts : PopupViewOptions) (initial : Rectangle) (pw : WinId)
    (s0 : State) :
  sound (length (windows s0)) pw (constructed opts initial pw s0).
Proof.
  split; [intros _|discriminate]. cbn.
  split; [reflexivity|]. split; [reflexivity|].
  unfold live, gone, listeners, constructed. cbn.
  rewrite !lookup_subscribed, !lookup_created.
  destruct (decide (pw = length (windows s0))) as [->|Hne].
  - rewrite !decide_True by reflexivity. rewrite !lookup_created. cbn.
    repeat split; intros; lia.
  - rewrite !decide_True by reflexivity.
    rewrite decide_False by congruence. cbn.
    split; [reflexivity|]. split; [lia|].
    destruct ((windows s0 ++ [created initial]) !! pw); cbn; [lia|discriminate].
Qed.

(** Whatever has happened to a popup since its construction, it is [sound]. *)
Lemma reachable_sound (v : Variant) (opts : PopupViewOptions) (initial : Rectangle)
    (s0 : State) (sys : System) (evs : list Event) :
  new_PopupView v opts initial s0 = Some sys ->
  sound (popup sys) (owner sys) (state (run evs sys)).
Proof.
  intros Hnew. apply sound_run.
  destruct (new_PopupView_constructed v opts initial s0 sys Hnew) as (pw & _ & _ & ->).
  apply constructed_sound.
Qed.

(** ** What the invariant gives *)

Lemma steady_setSize rect : preserves steady (setSize rect).
Proof. apply (preserves_setSize steady), steady_setBounds. Qed.

Lemma steady_live (s s' : State) (w : WinId) : steady s s' -> live s w -> live s' w.
Proof. intros (_ & _ & _ & H) Hl. unfold live. now rewrite (proj1 (H w)). Qed.

Lemma setSize_returns (rect : PartialRectangle) (s : State) :
  (forall bw, browserWindow (this s) = Some bw -> live s bw) ->
  fst (setSize rect s) = Return tt.
Proof.
  intros Hl. destruct (browserWindow (this s)) as [bw|] eqn:Hb;
    [|now rewrite setSize_released by auto].
  destruct (parent (this s)) as [pw|] eqn:Hp;
    [|now rewrite setSize_released by auto].
  destruct (live_window s bw (Hl bw eq_refl)) as (win & Hw & Hd).
  now rewrite (setSize_live rect s bw pw win Hb Hp Hw Hd).
Qed.

Lemma updatePosition_returns (s : State) :
  (forall bw, browserWindow (this s) = Some bw -> live s bw) ->
  fst (updatePosition s) = Return tt.
Proof.
  intros Hl. destruct (browserWindow (this s)) as [bw|] eqn:Hb;
    [|now rewrite updatePosition_released by auto].
  destruct (anchorWindowBounds (this s)) as [ab|] eqn:Ha;
    [|now rewrite updatePosition_released by auto].
  destruct (live_window s bw (Hl bw eq_refl)) as (win & Hw & Hd).
  now rewrite (updatePosition_live s bw ab win Hb Ha Hw Hd).
Qed.

Lemma updatePreferredSize_returns (size : PartialRectangle) (s : State) :
  (forall bw, browserWindow (this s) = Some bw -> live s bw) ->
  fst (updatePreferredSize size s) = Return tt.
Proof.
  intros Hl. unfold updatePreferredSize.
  erewrite bind_return by reflexivity.
  set (s1 := set_this (set_usingPreferredSize true) s).
  assert (Hl1 : forall bw, browserWindow (this s1) = Some bw -> live s1 bw)
    by (intros bw Hb; exact (Hl bw Hb)).
  pose proof (setSize_returns size s1 Hl1) as Hr.
  pose proof (steady_setSize size s1) as Hst.
  destruct (setSize size s1) as [[[]|e] s2] eqn:E; [|discriminate]. cbn in Hst.
  rewrite (bind_return _ _ _ _ _ E).
  apply updatePosition_returns. intros bw Hb.
  apply (steady_live s1 s2); [exact Hst|]. apply Hl1.
  destruct Hst as (_ & <- & _). exact Hb.
Qed.

Lemma sound_live (p o : WinId) (s : State) :
  sound p o s -> forall bw, browserWindow (this s) = Some bw -> live s bw.
Proof.
  intros [S1 S2] bw Hb. destruct (destroyed (this s)) eqn:Hd.
  - destruct (S2 eq_refl) as (Hn & _). congruence.
  - destruct (S1 eq_refl) as (Hp & _ & Hl & _). congruence.
Qed.

(** X1. The instance holds its window exactly while it is not destroyed, and
    the window it holds is live and subscribed to; a destroyed popup leaves
    no live window behind. *)
Theorem window_held_while_alive (v : Variant) (opts : PopupViewOptions)
    (initial : Rectangle) (s0 : State) (sys : System) (evs : list Event) :
  new_PopupView v opts initial s0 = Some sys ->
  let s := state (run evs sys) in
  (destroyed (this s) = false ->
     browserWindow (this s) = Some (popup sys) /\ parent (this s) = Some (owner sys) /\
     gone s (popup sys) = false /\ 1 <= listeners s (popup sys)) /\
  (destroyed (this s) = true ->
     browserWindow (this s) = None /\ parent (this s) = None /\
     gone s (popup sys) = true).
Proof.
  intros Hnew s. destruct (reachable_sound v opts initial s0 sys evs Hnew) as [S1 S2].
  split; [|exact S2]. intros Hd. destruct (S1 Hd) as (? & ? & ? & ? & _). auto.
Qed.

(** X2. No handler of the instance ever throws, whatever has happened before:
    the notification handler with any size, [setSize] with any rectangle,
    [updatePosition], [maybeClose] and [destroy] all return. *)
Theorem handlers_never_throw (v : Variant) (opts : PopupViewOptions)
    (initial : Rectangle) (s0 : State) (sys : System) (evs : list Event)
    (size rect : PartialRectangle) :
  new_PopupView v opts initial s0 = Some sys ->
  let s := state (run evs sys) in
  fst (updatePreferredSize size s) = Return tt /\
  fst (setSize rect s) = Return tt /\
  fst (updatePosition s) = Return tt /\
  fst (maybeClose s) = Return tt /\
  fst (destroy s) = Return tt.
Proof.
  intros Hnew s.
  pose proof (sound_live _ _ _ (reachable_sound v opts initial s0 sys evs Hnew)) as Hl.
  fold s in Hl.
  split; [now apply updatePreferredSize_returns|].
  split; [now apply setSize_returns|].
  split; [now apply updatePosition_returns|].
  split; [|apply destroy_returns].
  rewrite maybeClose_cases.
  destruct (devToolsOpen s); [reflexivity|].
  destruct (focusedWindow s); [apply destroy_returns|reflexivity].
Qed.

(** ** Tearing down *)

Lemma close_window_destroys (w : WinId) (once : bool) (s : State) :
  live s w -> 1 <= listeners s w ->
  destroyed (this (close_window w once s)) = true.
Proof.
  unfold live, gone, listeners, close_window.
  destruct (windows s !! w) as [win|]; [|discriminate].
  intros -> Hn. cbv zeta. rewrite destroy_iter by assumption. apply destroy_destroyed.
Qed.

Lemma maybeClose_destroys (s : State) :
  devToolsOpen s = false -> focusedWindow s <> None ->
  destroyed (this (exec maybeClose s)) = true.
Proof.
  intros Hd Hf. unfold exec. rewrite maybeClose_cases, Hd.
  destruct (focusedWindow s); [apply destroy_destroyed|congruence].
Qed.

Lemma set_devTools_focus (w : WinId) (open : bool) (s : State) :
  focusedWindow (set_devTools w open s) = focusedWindow s.
Proof.
  unfold set_devTools. destruct (windows s !! w) as [win|]; [|reflexivity].
  now destruct (win_destroyed win).
Qed.

Lemma set_devTools_closed (w : WinId) (s : State) :
  browserWindow (this s) = Some w -> devToolsOpen (set_devTools w false s) = false.
Proof.
  intros Hb. unfold set_devTools.
  destruct (windows s !! w) as [win|] eqn:Hw.
  - destruct (win_destroyed win) eqn:Hd.
    + unfold devToolsOpen, gone. now rewrite Hb, Hw, Hd.
    + unfold devToolsOpen, gone, inspected. cbn. rewrite Hb.
      rewrite list_lookup_insert_eq by (eapply lookup_lt_Some; eassumption).
      reflexivity.
  - unfold devToolsOpen, gone. now rewrite Hb, Hw.
Qed.

(** X3. Each trigger of the life cycle tears a live popup down in one turn of
    the event loop: from then on [isDestroyed()] answers [true], the
    instance holds neither window nor parent, and the popup's window is
    destroyed. *)
Theorem triggers_tear_down (v : Variant) (opts : PopupViewOptions)
    (initial : Rectangle) (s0 : State) (sys : System) (evs post : list Event)
    (e : Event) :
  new_PopupView v opts initial s0 = Some sys ->
  destroyed (this (state (run evs sys))) = false ->
  tears_down e (run evs sys) ->
  let s := state (run post (step e (run evs sys))) in
  PopupView_isDestroyed s = (Return true, s) /\
  browserWindow (this s) = None /\ parent (this s) = None /\
  gone s (popup sys) = true.
Proof.
  intros Hnew Hd He s.
  pose proof (reachable_sound v opts initial s0 sys evs Hnew) as Hs.
  destruct (run_ids evs sys) as (Hp & Ho & _).
  assert (Hstep : destroyed (this (state (step e (run evs sys)))) = true).
  { destruct Hs as [S1 _]. destruct (S1 Hd) as (Hb & _ & Hl & Hn & Hon).
    destruct e; cbn in He |- *; try contradiction.
    - apply maybeClose_destroys; [|now rewrite set_devTools_focus].
      rewrite Hp. now apply set_devTools_closed.
    - now apply maybeClose_destroys.
    - rewrite Hp. now apply close_window_destroys.
    - rewrite Ho in *. apply close_window_destroys; auto.
    - apply destroy_destroyed. }
  assert (Hfin : destroyed (this s) = true)
    by exact (keeps_destroyed _ _ (keeps_run post _) Hstep).
  assert (Hs' : sound (popup sys) (owner sys) s).
  { unfold s. apply sound_run. apply sound_step. exact Hs. }
  destruct Hs' as [_ S2]. destruct (S2 Hfin) as (? & ? & ?).
  unfold PopupView_isDestroyed, get. rewrite Hfin. auto.
Qed.

(** ** Silence after destruction *)

Lemma destroy_iter_destroyed (n : nat) (s : State) :
  destroyed (this s) = true -> Nat.iter n (exec destroy) s = s.
Proof.
  intros Hd. induction n as [|n IH]; [reflexivity|].
  rewrite Nat.iter_succ, IH. unfold exec. now rewrite destroy_again.
Qed.

Lemma close_window_silent (w : WinId) (once : bool) (s : State) :
  destroyed (this s) = true ->
  this (close_window w once s) = this s /\ calls (close_window w once s) = calls s.
Proof.
  intros Hd. unfold close_window. destruct (windows s !! w) as [win|]; [|auto].
  destruct (win_destroyed win); [auto|]. cbv zeta.
  now rewrite destroy_iter_destroyed.
Qed.

Lemma maybeClose_destroyed (s : State) :
  destroyed (this s) = true -> browserWindow (this s) = None ->
  maybeClose s = (Return tt, s).
Proof.
  intros Hd Hb. rewrite maybeClose_cases. unfold devToolsOpen. rewrite Hb.
  destruct (focusedWindow s); [now apply destroy_again|reflexivity].
Qed.

(** X4. Once the popup is destroyed, no event handler makes any call on
    Electron any more: a late notification, blur, 'devtools-closed',
    'closed' of either window or [destroy()] leaves the log as it is, and the
    instance as it is but for the latch a notification sets. *)
Theorem handlers_silent_after_destroy (v : Variant) (opts : PopupViewOptions)
    (initial : Rectangle) (s0 : State) (sys : System) (evs : list Event) (e : Event) :
  new_PopupView v opts initial s0 = Some sys ->
  destroyed (this (state (run evs sys))) = true ->
  plain e = true ->
  let s := state (run evs sys) in
  let s' := state (step e (run evs sys)) in
  calls s' = calls s /\
  (this s' = this s \/ this s' = set_usingPreferredSize true (this s)).
Proof.
  intros Hnew Hd He s s'.
  destruct (reachable_sound v opts initial s0 sys evs Hnew) as [_ S2].
  destruct (S2 Hd) as (Hb & Hp & _). fold s in Hb, Hp, Hd.
  pose proof (maybeClose_destroyed s Hd Hb) as Hm.
  unfold s'. destruct e; try discriminate; cbn; fold s.
  - destruct (inert s (Size w h) (Size w h) Hb) as (_ & _ & E).
    unfold exec. rewrite E. cbn. auto.
  - unfold set_devTools. destruct (windows s !! popup (run evs sys)) as [win|]; [|auto].
    destruct (win_destroyed win); auto.
  - unfold set_devTools. destruct (windows s !! popup (run evs sys)) as [win|] eqn:Hw.
    + destruct (win_destroyed win) eqn:Hwd; [unfold exec; rewrite Hm; auto|].
      unfold exec. rewrite maybeClose_destroyed by assumption. auto.
    + unfold exec. rewrite Hm. auto.
  - unfold exec. rewrite Hm. auto.
  - auto.
  - destruct (close_window_silent (popup (run evs sys)) false s Hd) as [-> ->]. auto.
  - destruct (close_window_silent (owner (run evs sys)) true s Hd) as [-> ->]. auto.
  - destruct (decide (w = popup (run evs sys))); [auto|]. cbn. fold s.
    unfold move_window. destruct (windows s !! w) as [win|]; [|auto].
    destruct (win_destroyed win); auto.
  - unfold exec. rewrite destroy_again by exact Hd. auto.
Qed.

(** ** Construction and destruction, end to end *)

Lemma adjust_alter (f : BrowserWindow -> BrowserWindow) (w : WinId)
    (ws : list BrowserWindow) :
  match ws !! w with
  | Some win => <[w := f win]> ws
  | None => ws
  end = alter f w ws.
Proof.
  apply list_eq. intros i. rewrite list_lookup_alter.
  case_decide as Hi; [rewrite <- Hi; clear Hi|];
    destruct (ws !! w) as [win|] eqn:Hw; try reflexivity.
  - rewrite list_lookup_insert_eq by (eapply lookup_lt_Some; eassumption).
    symmetry. exact (f_equal (fmap f) Hw).
  - transitivity (@None BrowserWindow); [exact Hw|].
    symmetry. exact (f_equal (fmap f) Hw).
  - now rewrite list_lookup_insert_ne.
Qed.

Lemma off_closed_alter (w : WinId) (s : State) :
  off_closed w s
  = (Return tt,
     set_windows (alter unsubscribe w (windows s)) (add_call (CallOffClosed w) s)).
Proof.
  rewrite <- adjust_alter.
  unfold off_closed, bind, log, object, store, skip, ret. cbn.
  now destruct (windows s !! w).
Qed.

Lemma destroy_window_alter (w : WinId) (s : State) :
  live s w ->
  destroy_window w s
  = (Return tt, set_windows (alter dead w (windows s)) (add_call (CallDestroy w) s)).
Proof.
  intros Hl. destruct (live_window s w Hl) as (win & Hw & Hd).
  rewrite <- adjust_alter.
  unfold destroy_window, bind, log, native, store. cbn. now rewrite Hw, Hd.
Qed.

Lemma gone_alter (f : BrowserWindow -> BrowserWindow) (w w' : WinId) (s s' : State) :
  (forall win, win_destroyed (f win) = win_destroyed win) ->
  windows s' = alter f w (windows s) ->
  gone s' w' = gone s w'.
Proof.
  intros Hf Hw. unfold gone, WinId in *. rewrite Hw, list_lookup_alter.
  case_decide; subst; [|reflexivity]. destruct (windows s !! w'); cbn; auto.
Qed.

Lemma inspected_alter (f : BrowserWindow -> BrowserWindow) (w w' : WinId) (s s' : State) :
  (forall win, win_devTools (f win) = win_devTools win) ->
  windows s' = alter f w (windows s) ->
  inspected s' w' = inspected s w'.
Proof.
  intros Hf Hw. unfold inspected, WinId in *. rewrite Hw, list_lookup_alter.
  case_decide; subst; [|reflexivity]. destruct (windows s !! w'); cbn; auto.
Qed.

(** [destroy()] on a popup whose window and parent are live, devtools
    closed: the state it leaves, in full. *)
Lemma destroy_live (s : State) (pw bw : WinId) :
  destroyed (this s) = false ->
  parent (this s) = Some pw -> browserWindow (this s) = Some bw ->
  live s pw -> live s bw -> inspected s bw = false ->
  destroy s =
    (Return tt,
     mkState (set_browserWindow None (set_parent None (set_destroyed true (this s))))
       (alter dead bw (alter unsubscribe bw (alter unsubscribe pw (windows s))))
       (focusedWindow s)
       (calls s ++ [CallOffClosed pw; CallOffClosed bw; CallDestroy bw])).
Proof.
  intros Hd Hp Hb Hlp Hlb Hi. unfold destroy.
  rewrite (bind_return _ _ s s false) by (unfold get; now rewrite Hd).
  erewrite bind_return by reflexivity.
  erewrite bind_return by reflexivity.
  cbn [this set_this parent set_destroyed]. rewrite Hp.
  rewrite ?bind_assoc.
  rewrite (bind_return _ _ _ _ _ (isDestroyed_gone pw _)).
  change (gone (set_this (set_destroyed true) s) pw) with (gone s pw).
  rewrite Hlp. cbn [negb]. rewrite ?bind_assoc.
  rewrite (bind_return _ _ _ _ _ (off_closed_alter pw _)).
  erewrite bind_return by reflexivity.
  erewrite bind_return by reflexivity.
  cbn [this set_this set_windows add_call browserWindow set_parent set_destroyed].
  rewrite Hb. rewrite ?bind_assoc.
  match goal with |- bind _ _ ?x = _ => set (s1 := x) end.
  assert (G1 : gone s1 bw = false).
  { rewrite (gone_alter unsubscribe pw bw s s1); auto. }
  assert (I1 : inspected s1 bw = false).
  { rewrite (inspected_alter unsubscribe pw bw s s1); auto. }
  rewrite (bind_return _ _ _ _ _ (isDestroyed_gone bw _)), G1. cbn [negb].
  rewrite ?bind_assoc.
  rewrite (bind_return _ _ _ _ _ (isDevToolsOpened_live bw s1 G1)), I1.
  rewrite ?bind_assoc.
  erewrite bind_return by reflexivity.
  rewrite ?bind_assoc.
  rewrite (bind_return _ _ _ _ _ (off_closed_alter bw _)).
  rewrite ?bind_assoc.
  match goal with |- bind _ _ ?x = _ => set (s2 := x) end.
  assert (G2 : live s2 bw).
  { unfold live. rewrite (gone_alter unsubscribe bw bw s1 s2); auto. }
  rewrite (bind_return _ _ _ _ _ (destroy_window_alter bw s2 G2)).
  subst s2 s1. unfold assign, set_this, set_windows, add_call. cbn.
  now rewrite <- !app_assoc.
Qed.

(** X5. Constructing a popup and destroying it is a round trip for the
    application: every window it had is as it was, the parent with the
    listeners it had; what is added is the popup's window, destroyed and
    with no listener left, and four calls. *)
Theorem construct_then_destroy (v : Variant) (opts : PopupViewOptions)
    (initial : Rectangle) (pw : WinId) (s0 : State) :
  (forall w, snapshot_source opts = Some w -> live s0 w) ->
  opt_parent opts = Some pw ->
  live s0 pw ->
  let n := length (windows s0) in
  let s1 := exec (constructor v opts initial) s0 in
  let s2 := exec destroy s1 in
  listeners s1 pw = S (listeners s0 pw) /\ listeners s1 n = 1 /\
  windows s2 = windows s0 ++ [mkWindow true initial false false 0] /\
  focusedWindow s2 = focusedWindow s0 /\
  calls s2 = calls s0 ++ [CallLoadURL n (opt_url opts); CallOffClosed pw;
                          CallOffClosed n; CallDestroy n].
Proof.
  intros Hsrc Hp Hl n s1 s2.
  destruct (live_window s0 pw Hl) as (winp & Hw & Hwd). unfold WinId in *.
  assert (Hlt : pw < n) by (eapply lookup_lt_Some; eassumption).
  assert (E1 : s1 = constructed opts initial pw s0).
  { unfold s1, exec. now rewrite (constructor_live v opts initial pw s0 Hsrc Hp). }
  assert (W1 : forall i, windows s1 !! i =
     if decide (i = pw) then Some (mkWindow false (win_bounds winp) (win_visible winp)
                                     (win_devTools winp) (S (closedListeners winp)))
     else if decide (i = n) then Some (mkWindow false initial false false 1)
     else windows s0 !! i).
  { intros i. rewrite E1. unfold constructed. cbn. fold n.
    rewrite !lookup_subscribed.
    destruct (decide (i = pw)) as [->|Hne].
    - rewrite decide_True by reflexivity. rewrite decide_False by lia.
      rewrite lookup_app_l by exact Hlt. rewrite Hw. cbn. now rewrite Hwd.
    - rewrite decide_False by congruence.
      destruct (decide (i = n)) as [->|Hnn].
      + rewrite decide_True by reflexivity. unfold n. now rewrite lookup_created.
      + rewrite decide_False by congruence.
        destruct (decide (i < n)) as [Hi|Hi]; [now rewrite lookup_app_l|].
        rewrite !lookup_ge_None_2; [reflexivity|lia|rewrite length_app; cbn; lia]. }
  assert (L1 : listeners s1 pw = S (listeners s0 pw)).
  { unfold listeners. unfold WinId. rewrite W1, decide_True, Hw by reflexivity.
    reflexivity. }
  assert (L2 : listeners s1 n = 1).
  { unfold listeners. rewrite W1, decide_False, decide_True by lia. reflexivity. }
  split; [exact L1|]. split; [exact L2|].
  unfold s2, exec. rewrite (destroy_live s1 pw n); cycle 1.
  { now rewrite E1. }
  { now rewrite E1. }
  { now rewrite E1. }
  { unfold live, gone. now rewrite W1, decide_True by reflexivity. }
  { unfold live, gone. now rewrite W1, decide_False, decide_True by lia. }
  { unfold inspected. now rewrite W1, decide_False, decide_True by lia. }
  cbn.
  split; [|split; [now rewrite E1|rewrite E1; cbn; now rewrite <- app_assoc]].
  apply list_eq. intros i.
  destruct (decide (i = n)) as [->|Hnn].
  - rewrite list_lookup_alter, decide_True by reflexivity.
    rewrite list_lookup_alter, decide_True by reflexivity.
    rewrite list_lookup_alter_ne by lia.
    rewrite W1, decide_False, decide_True by lia.
    unfold n. now rewrite lookup_created.
  - rewrite !(list_lookup_alter_ne _ _ n) by congruence.
    destruct (decide (i = pw)) as [->|Hne].
    + rewrite list_lookup_alter, decide_True by reflexivity.
      rewrite W1, decide_True by reflexivity. cbn.
      rewrite lookup_app_l by exact Hlt. rewrite Hw.
      destruct winp; cbn in *; now subst.
    + rewrite list_lookup_alter_ne by congruence.
      rewrite W1, !decide_False by congruence.
      destruct (decide (i < n)) as [Hi|Hi]; [now rewrite lookup_app_l|].
      rewrite !lookup_ge_None_2; [reflexivity|rewrite length_app; cbn; lia|lia].
Qed.

(** X6. The constructor reads the bounds of its anchor (of its parent, without
    an anchor) before it creates anything: on a destroyed one it throws
    Electron's exception, and no window has been created, no listener
    registered and nothing loaded. *)
Theorem constructor_fails_before_creating (v : Variant) (opts : PopupViewOptions)
    (initial : Rectangle) (s0 : State) (w : WinId) :
  snapshot_source opts = Some w -> gone s0 w = true ->
  exists s1,
    constructor v opts initial s0 = (Throw ObjectDestroyed, s1) /\
    windows s1 = windows s0 /\ calls s1 = calls s0 /\
    focusedWindow s1 = focusedWindow s0 /\
    new_PopupView v opts initial s0 = None.
Proof.
  intros Hsrc Hg.
  set (s1 := set_this (fun _ => mkPopupView None (opt_parent opts)
                 (opt_anchorWindow opts) None (opt_extensionId opts)
                 (opt_anchorRect opts) false false) s0).
  assert (E : getBounds w s1 = (Throw ObjectDestroyed, s1)).
  { unfold getBounds, bind, native, gone in *. cbn.
    destruct (windows s0 !! w) as [win|]; [|reflexivity]. now rewrite Hg. }
  exists s1. unfold new_PopupView.
  assert (C : constructor v opts initial s0 = (Throw ObjectDestroyed, s1)).
  { unfold constructor.
    rewrite (bind_return _ _ s0 s1 tt) by reflexivity.
    rewrite (bind_return _ _ s1 s1 (opt_anchorWindow opts)) by reflexivity.
    rewrite (bind_return _ _ s1 s1 (opt_parent opts)) by reflexivity.
    unfold snapshot_source in Hsrc.
    destruct (opt_anchorWindow opts) as [a|].
    - injection Hsrc as ->. unfold bind at 1. unfold bind at 1. now rewrite E.
    - rewrite Hsrc. unfold bind at 1. unfold bind at 1. now rewrite E. }
  rewrite C. cbn. auto.
Qed.

(** ** The latch ends the polling *)

#[export] Instance latched_preorder : PreOrder latched.
Proof.
  split.
  - intros s H. now split.
  - intros a b c Hab Hbc H. destruct (Hab H) as [H1 H2].
    destruct (Hbc H1) as [H3 H4]. split; [assumption|congruence].
Qed.

Lemma latched_frame (s s' : State) (l : list Call) :
  usingPreferredSize (this s') = usingPreferredSize (this s) ->
  calls s' = calls s ++ l -> count_call is_measure l = 0 ->
  latched s s'.
Proof.
  intros Hu Hc Hl H. split; [congruence|].
  unfold measurements. rewrite Hc, count_call_app, Hl. lia.
Qed.

Lemma latched_same (s s' : State) :
  this s' = this s -> calls s' = calls s -> latched s s'.
Proof.
  intros Ht Hc. apply (latched_frame s s' []); [now rewrite Ht|now rewrite app_nil_r|
    reflexivity].
Qed.

Lemma latched_latch : preserves latched (assign (set_usingPreferredSize true)).
Proof. intros s _. split; reflexivity. Qed.

Lemma latched_setBounds (w : WinId) (r : Rectangle) : preserves latched (setBounds w r).
Proof.
  intros s. destruct (setBounds_frame w r s) as [Ht Hc].
  apply (latched_frame _ _ [CallSetBounds w r]); [now rewrite Ht|assumption|reflexivity].
Qed.

Lemma latched_show (w : WinId) : preserves latched (show w).
Proof.
  intros s. destruct (show_frame w s) as [Ht Hc].
  apply (latched_frame _ _ [CallShow w]); [now rewrite Ht|assumption|reflexivity].
Qed.

Lemma latched_content_check (w : WinId) :
  preserves latched (executeJavaScript w HasChildNodes).
Proof.
  intros s. destruct (executeJavaScript_frame w HasChildNodes s) as [Ht Hc].
  apply (latched_frame _ _ [CallExecuteJavaScript w HasChildNodes]);
    [now rewrite Ht|assumption|reflexivity].
Qed.

Lemma latched_destroy : preserves latched destroy.
Proof.
  intros s. destruct (destroyed (this s)) eqn:Hd.
  - rewrite (destroy_again s Hd). reflexivity.
  - destruct (destroy_first s Hd) as (s' & E & Ht & _ & Hc & _). rewrite E. cbn [snd].
    apply (latched_frame _ _ (destroy_calls s)); [now rewrite Ht|assumption|].
    unfold destroy_calls.
    destruct (parent (this s)) as [pw|], (browserWindow (this s)) as [bw|];
      repeat match goal with |- context [if ?b then _ else _] => destruct b end;
      reflexivity.
Qed.

(** With the latch set, [queryPreferredSize] returns at its guard. *)
Lemma latched_queryPreferredSize_start : preserves latched queryPreferredSize_start.
Proof.
  intros s H. unfold queryPreferredSize_start, bind, get, ret. cbn. rewrite H. cbn.
  now split.
Qed.

(** [resume], from what is preserved by the methods it calls; the content
    check and the measurement are told apart. *)
Lemma preserves_resume_split (R : State -> State -> Prop) `{!PreOrder R} :
  (forall rect, preserves R (setSize rect)) ->
  preserves R queryPreferredSize_start ->
  (forall v, preserves R (queryPreferredSize_resume v)) ->
  (forall w, preserves R (executeJavaScript w HasChildNodes)) ->
  preserves R destroy ->
  (forall w, preserves R (show w)) ->
  forall t v, preserves R (resume t v).
Proof.
  intros H1 H2 H3 H4 H5 H6 t v.
  destruct t; cbn [resume loadA_resume domReady_resume];
    unfold loadA_after_query, domReady_show; preserving.
Qed.

Lemma latched_step (e : Event) (sys : System) :
  latched (state sys) (state (step e sys)).
Proof.
  destruct (plain e) eqn:He.
  { apply (preserves_plain latched latched_latch latched_setBounds latched_destroy);
      [intros; now apply latched_same..|assumption]. }
  destruct e; try discriminate; cbn.
  - destruct (tasks sys !! i) as [[t|]|]; cbn; try reflexivity.
    apply (preserves_resume_split latched
             (preserves_setSize latched latched_setBounds)
             latched_queryPreferredSize_start
             (preserves_queryPreferredSize_resume latched latched_setBounds)
             latched_content_check latched_destroy latched_show).
  - destruct (variant sys); cbn; [reflexivity|].
    apply (preserves_domReady_start latched latched_setBounds latched_show).
Qed.

Lemma latched_run (evs : list Event) (sys : System) :
  latched (state sys) (state (run evs sys)).
Proof.
  revert sys. induction evs as [|e evs IH]; intros sys; [reflexivity|].
  change (run (e :: evs) sys) with (run evs (step e sys)).
  etransitivity; [apply latched_step|apply IH].
Qed.

(** X7. Once a 'preferred-size-changed' notification has been handled, the
    latch is set for good and the measuring script is never evaluated again,
    whatever happens next: neither by a [load] or [domReady] that is waiting
    at its timeout, nor by a later 'dom-ready'.  (A measurement that was
    already being evaluated is not counted again: it has been started
    before.) *)
Theorem notification_ends_polling (sys : System) (w h : number) (evs : list Event) :
  let sys1 := step (PreferredSizeChanged w h) sys in
  usingPreferredSize (this (state (run evs sys1))) = true /\
  measurements (state (run evs sys1)) = measurements (state sys).
Proof.
  intros sys1.
  assert (H1 : usingPreferredSize (this (state sys1)) = true /\
               measurements (state sys1) = measurements (state sys)).
  { unfold sys1, step, handle, with_state, exec, updatePreferredSize. cbn [state].
    rewrite (bind_return _ _ _ (set_this (set_usingPreferredSize true) (state sys)) tt)
      by reflexivity.
    assert (P : preserves latched (setSize (Size w h);; updatePosition)%M).
    { apply preserves_bind; [typeclasses eauto| |intros _].
      - apply (preserves_setSize latched latched_setBounds).
      - apply (preserves_updatePosition latched latched_setBounds). }
    apply (P (set_this (set_usingPreferredSize true) (state sys))). reflexivity. }
  destruct H1 as [H1 H2].
  destruct (latched_run evs sys1 H1) as [H3 H4]. split; [assumption|congruence].
Qed.

(** ** How often the window is shown *)

(** The log of calls only grows. *)
#[export] Instance grows_preorder : PreOrder grows.
Proof.
  split.
  - intros s. exists []. now rewrite app_nil_r.
  - intros a b c (l & Hl) (l' & Hl'). exists (l ++ l'). now rewrite Hl', Hl, app_assoc.
Qed.

Lemma grows_same (s s' : State) : calls s' = calls s -> grows s s'.
Proof. intros H. exists []. now rewrite app_nil_r. Qed.

Lemma grows_destroy : preserves grows destroy.
Proof.
  intros s. destruct (destroyed (this s)) eqn:Hd.
  - rewrite (destroy_again s Hd). reflexivity.
  - destruct (destroy_first s Hd) as (s' & E & _ & _ & Hc & _). rewrite E.
    now exists (destroy_calls s).
Qed.

Lemma grows_run (evs : list Event) (sys : System) :
  grows (state sys) (state (run evs sys)).
Proof.
  apply (preserves_run grows).
  - intros s. now apply grows_same.
  - intros w r s. eexists. apply setBounds_frame.
  - intros w src s. eexists. apply executeJavaScript_frame.
  - apply grows_destroy.
  - intros. now apply grows_same.
  - intros. now apply grows_same.
  - intros w s. eexists. apply show_frame.
Qed.

Lemma final_ret (t : option Task) : final (ret t).
Proof. intros s. cbn. lia. Qed.

Lemma final_quiet (m : M (option Task)) : preserves quiet m -> final m.
Proof. intros H s. rewrite (quiet_shows _ _ (H s)). lia. Qed.

Lemma final_bind {A} (m : M A) (f : A -> M (option Task)) :
  preserves quiet m -> (forall a, final (f a)) -> final (bind m f).
Proof.
  intros Hm Hf s. unfold bind. specialize (Hm s). apply quiet_shows in Hm.
  destruct (m s) as [[a|e] s']; cbn [fst snd] in *.
  - rewrite <- Hm. apply Hf.
  - cbn. lia.
Qed.

Lemma final_show (w : WinId) : final (show w;; ret None)%M.
Proof.
  intros s. destruct (show_frame w s) as [_ Hc]. unfold bind.
  destruct (show w s) as [[[]|e] s']; cbn [fst snd finished ret] in *;
    unfold shows; rewrite Hc, count_call_app; cbn; lia.
Qed.

Lemma final_resume (t : Task) (v : Settled) : final (resume t v).
Proof.
  pose proof quiet_destroy. pose proof quiet_executeJavaScript.
  pose proof (preserves_setSize quiet quiet_setBounds).
  pose proof (preserves_queryPreferredSize_start quiet quiet_executeJavaScript).
  pose proof (preserves_queryPreferredSize_resume quiet quiet_setBounds).
  destruct t; cbn [resume loadA_resume domReady_resume];
    unfold loadA_after_query, domReady_show;
    repeat first
      [ progress cbv zeta
      | apply final_ret
      | apply final_show
      | match goal with
        | |- final (if ?b then _ else _) => destruct b
        | |- final (match ?x with _ => _ end) => destruct x
        | |- final (bind _ _) => apply final_bind; [preserving|intros ?]
        end ].
Qed.

Lemma shown_within_step (n : nat) (e : Event) (sys : System) :
  shown_within n sys -> shown_within n (step e sys).
Proof.
  intros (Hv & t & Ht & Hn).
  destruct (plain e) eqn:He.
  { destruct (plain_tasks e sys He) as [E1 E2]. split; [congruence|].
    exists t. split; [congruence|].
    now rewrite (quiet_shows _ _ (quiet_plain e sys He)). }
  destruct e; try discriminate; cbn.
  - rewrite Ht. destruct i as [|i]; cbn; [|now split; [|exists t]].
    destruct t as [t|]; [|now split; [|exists None]].
    pose proof (final_resume t v (state sys)) as Hf.
    set (r := resume t v (state sys)) in *. cbn.
    split; [assumption|]. eexists. split; [reflexivity|].
    change (state (with_tasks [finished (fst r)] (with_state (snd r) sys)))
      with (snd r).
    destruct (finished (fst r)); lia.
  - rewrite Hv. now split; [|exists t].
Qed.

Lemma shown_within_run (n : nat) (evs : list Event) (sys : System) :
  shown_within n sys -> shown_within n (run evs sys).
Proof.
  revert sys. induction evs as [|e evs IH]; intros sys H; [exact H|].
  change (run (e :: evs) sys) with (run evs (step e sys)).
  apply IH, shown_within_step, H.
Qed.

(** X8. Variant A calls [show()] at most once in the life of a popup, whatever
    the events and their order, and not at all as long as its [load] has
    not finished. *)
Theorem shown_at_most_once (opts : PopupViewOptions) (initial : Rectangle)
    (s0 : State) (sys : System) (evs : list Event) :
  new_PopupView VariantA opts initial s0 = Some sys ->
  shows (state (run evs sys)) <= S (shows s0) /\
  (tasks (run evs sys) <> [None] -> shows (state (run evs sys)) = shows s0).
Proof.
  intros Hnew.
  destruct (new_PopupView_spec _ _ _ _ _ Hnew) as (Hv & _ & (t & Ht) & _ & _ & _ & Hq).
  assert (H : shown_within (shows s0) sys).
  { split; [assumption|]. exists t. split; [assumption|].
    rewrite (quiet_shows _ _ Hq). lia. }
  assert (Hge : shows s0 <= shows (state (run evs sys))).
  { destruct Hq as [(l & Hl & _) _].
    destruct (grows_run evs sys) as (l' & Hl').
    unfold shows. rewrite Hl', Hl, !count_call_app. lia. }
  destruct (shown_within_run _ evs sys H) as (_ & t' & Ht' & Hn).
  split.
  - destruct t'; lia.
  - intros Hne. destruct t' as [t'|]; [lia|congruence].
Qed.

(** ** The measurement, from its result to the visible popup *)

Lemma show_live (w : WinId) (s : State) (win : BrowserWindow) :
  windows s !! w = Some win -> win_destroyed win = false ->
  show w s =
    (Return tt,
     set_windows (<[w := mkWindow false (win_bounds win) true (win_devTools win)
                            (closedListeners win)]> (windows s))
       (add_call (CallShow w) s)).
Proof.
  intros Hw Hd. unfold show, bind, log, native, store. cbn. now rewrite Hw, Hd.
Qed.

Lemma queryPreferredSize_resume_live (rect : PartialRectangle) (s : State)
    (bw pw : WinId) (ab : Rectangle) (win : BrowserWindow) :
  destroyed (this s) = false ->
  browserWindow (this s) = Some bw -> parent (this s) = Some pw ->
  anchorWindowBounds (this s) = Some ab ->
  windows s !! bw = Some win -> win_destroyed win = false ->
  let r1 := with_size (win_bounds win) (num (applied_width rect)) (num (applied_height rect)) in
  let r2 := with_origin r1 (Math_floor (plus (x ab) (x (anchorRect (this s)))))
              (Math_floor (plus (y ab) (y (anchorRect (this s))))) in
  exists s', queryPreferredSize_resume (Fulfilled (VObject rect)) s = (Return tt, s') /\
    this s' = this s /\
    windows s' !! bw = Some (mkWindow false r2 (win_visible win) (win_devTools win)
                               (closedListeners win)) /\
    calls s' = calls s ++ [CallSetBounds bw r1; CallSetBounds bw r2].
Proof.
  intros Hd0 Hb Hp Ha Hw Hd r1 r2. unfold queryPreferredSize_resume.
  erewrite bind_return by reflexivity.
  rewrite (bind_return _ _ s s false) by (unfold get; now rewrite Hd0).
  cbn [prop].
  erewrite bind_return by reflexivity.
  erewrite bind_return by reflexivity.
  assert (Hsz : forall r : PartialRectangle,
            width_opt r = width_opt rect -> height_opt r = height_opt rect ->
            setSize r s = setSize rect s).
  { intros r E1 E2. unfold setSize. now rewrite E1, E2. }
  rewrite (bind_return _ _ s _ tt
             (eq_trans (Hsz _ eq_refl eq_refl) (setSize_live rect s bw pw win Hb Hp Hw Hd))).
  fold r1.
  match goal with |- context [updatePosition ?x] => set (s2 := x) end.
  assert (Hw2 : windows s2 !! bw =
                Some (mkWindow false r1 (win_visible win) (win_devTools win)
                        (closedListeners win))).
  { subst s2. cbn. apply list_lookup_insert_eq. eapply lookup_lt_Some; eassumption. }
  rewrite (updatePosition_live s2 bw ab _ Hb Ha Hw2 eq_refl).
  eexists; split; [reflexivity|]. cbn. fold r2.
  split; [reflexivity|]. split.
  - rewrite list_insert_insert_eq.
    apply list_lookup_insert_eq. eapply lookup_lt_Some; eassumption.
  - now rewrite <- app_assoc.
Qed.

(** X9. When the measurement of a popup that has not been destroyed comes back,
    in variant A's [load] as in variant B's [domReady], the window is given
    the measured size brought into the bounds and floored, is put at the
    anchored position, [Math.floor] of JavaScript's sum of the origin of the
    construction's snapshot and the offset's, and is shown: three calls on
    the window, in this order, and the function has finished. *)
Theorem measurement_sizes_places_shows (v : Variant) (opts : PopupViewOptions)
    (initial : Rectangle) (s0 : State) (sys : System) (evs : list Event) (i : nat)
    (t : Task) (rect : PartialRectangle) (ab : Rectangle) :
  new_PopupView v opts initial s0 = Some sys ->
  snapshot_of opts s0 = Some ab ->
  tasks (run evs sys) !! i = Some (Some t) ->
  t = LoadA_query (popup sys) \/ t = DomReady_query (Some (popup sys)) ->
  destroyed (this (state (run evs sys))) = false ->
  let sys2 := step (Settle i (Fulfilled (VObject rect))) (run evs sys) in
  let placed_at :=
    {| x := Math_floor (plus (x ab) (x (opt_anchorRect opts)));
       y := Math_floor (plus (y ab) (y (opt_anchorRect opts)));
       width := num (applied_width rect);
       height := num (applied_height rect) |} in
  bounds_of (state sys2) (popup sys) = Some placed_at /\
  visible_of (state sys2) (popup sys) = Some true /\
  tasks sys2 !! i = Some None /\
  exists cur,
    bounds_of (state (run evs sys)) (popup sys) = Some cur /\
    calls (state sys2) =
      calls (state (run evs sys)) ++
      [CallSetBounds (popup sys)
         (with_size cur (num (applied_width rect)) (num (applied_height rect)));
       CallSetBounds (popup sys) placed_at;
       CallShow (popup sys)].
Proof.
  intros Hnew Hab Ht Hq Hd sys2 placed_at.
  destruct (new_PopupView_spec _ _ _ _ _ Hnew) as (_ & _ & _ & Ha & Hr & _ & _).
  pose proof (keeps_run evs sys) as K.
  pose proof (reachable_sound v opts initial s0 sys evs Hnew) as [S1 _].
  destruct (S1 Hd) as (Hb & Hp & Hl & _).
  destruct (live_window _ _ Hl) as (win & Hw & Hwd).
  assert (Ha' : anchorWindowBounds (this (state (run evs sys))) = Some ab).
  { rewrite (keeps_anchorWindowBounds _ _ K). congruence. }
  assert (Hr' : anchorRect (this (state (run evs sys))) = opt_anchorRect opts).
  { rewrite (keeps_anchorRect _ _ K). congruence. }
  destruct (queryPreferredSize_resume_live rect _ _ _ ab win Hd Hb Hp Ha' Hw Hwd)
    as (s1 & E & T & W & C).
  rewrite Hr' in W, C.
  assert (Hs : show (popup sys) s1 = _) by (apply (show_live _ _ _ W eq_refl)).
  assert (R : resume t (Fulfilled (VObject rect)) (state (run evs sys)) =
              (Return None,
               set_windows (<[popup sys := mkWindow false placed_at true (win_devTools win)
                                             (closedListeners win)]> (windows s1))
                 (add_call (CallShow (popup sys)) s1))).
  { destruct Hq as [-> | ->]; cbn [resume loadA_resume domReady_resume].
    - rewrite (bind_return _ _ _ _ _ E). unfold loadA_after_query.
      rewrite (bind_return _ _ s1 s1 false)
        by (unfold get; now rewrite T, Hd).
      now rewrite (bind_return _ _ _ _ _ Hs).
    - rewrite (bind_return _ _ _ _ _ E). unfold domReady_show.
      erewrite bind_return by reflexivity.
      now rewrite (bind_return _ _ _ _ _ Hs). }
  unfold sys2. rewrite (step_settle _ _ _ _ Ht), R.
  cbn [fst snd finished state tasks with_tasks with_state].
  assert (Hlt : popup sys < length (windows s1)) by (eapply lookup_lt_Some; eassumption).
  unfold bounds_of, visible_of. cbn [windows set_windows add_call calls].
  rewrite list_lookup_insert_eq by exact Hlt. cbn.
  split; [reflexivity|]. split; [reflexivity|]. split.
  - apply list_lookup_insert_eq. eapply lookup_lt_Some; eassumption.
  - exists (win_bounds win). rewrite Hw. split; [reflexivity|].
    rewrite C, <- app_assoc. reflexivity.
Qed.

(** X10. Variant A: when a script evaluation [load] waits for is rejected,
    the content check or the measurement, [load] ends with the rejection.
    Nothing is called and nothing changes, the popup is not destroyed by it,
    and from then on no event makes the code show the window. *)
Theorem rejected_evaluation_stays_hidden (sys : System) (t : Task) (w : WinId) :
  variant sys = VariantA ->
  tasks sys = [Some t] ->
  t = LoadA_hasChildNodes w \/ t = LoadA_query w ->
  let sys1 := step (Settle 0 Rejected) sys in
  state sys1 = state sys /\
  forall post,
    tasks (run post sys1) = [None] /\
    quiet (state sys) (state (run post sys1)) /\
    shows (state (run post sys1)) = shows (state sys).
Proof.
  intros Hv Ht Hw sys1.
  assert (E : sys1 = with_tasks [None] sys).
  { unfold sys1. rewrite (step_settle sys 0 t Rejected) by now rewrite Ht.
    rewrite Ht. destruct Hw as [-> | ->]; cbn; now destruct sys. }
  split; [now rewrite E|]. intros post.
  assert (Ho : over sys1) by (rewrite E; now split).
  assert (Hq : quiet (state sys) (state (run post sys1))).
  { pose proof (over_run post sys1 Ho) as H. now rewrite E in H at 1. }
  split; [|split; [exact Hq|now apply quiet_shows]].
  clear Hq E. revert Ho. generalize sys1. clear.
  induction post as [|e post IH]; intros sys [Hv Ht]; [exact Ht|].
  change (run (e :: post) sys) with (run post (step e sys)).
  apply IH. now apply over_step.
Qed.

(** ** The popup keeps to its own window *)

#[export] Instance confined_preorder (p o : WinId) : PreOrder (confined p o).
Proof.
  split.
  - intros s H. split; [assumption|]. exists []. now rewrite app_nil_r.
  - intros a b c Hab Hbc H. destruct (Hab H) as (H1 & l & Hl & Fl).
    destruct (Hbc H1) as (H2 & l' & Hl' & Fl'). split; [assumption|].
    exists (l ++ l'). split; [now rewrite Hl', Hl, app_assoc|].
    apply Forall_app. now split.
Qed.

Lemma confined_frame (p o : WinId) (s s' : State) (l : list Call) :
  this s' = this s -> calls s' = calls s ++ l -> Forall (own_call p o) l ->
  confined p o s s'.
Proof.
  intros Ht Hc Hl H. split; [unfold owns; now rewrite Ht|]. now exists l.
Qed.

Lemma confined_same (p o : WinId) (s s' : State) :
  this s' = this s -> calls s' = calls s -> confined p o s s'.
Proof.
  intros Ht Hc. apply (confined_frame p o s s' []); [assumption|now rewrite app_nil_r|
    constructor].
Qed.

Lemma confined_latch (p o : WinId) :
  preserves (confined p o) (assign (set_usingPreferredSize true)).
Proof.
  intros s H. split; [exact H|]. exists []. split; [now rewrite app_nil_r|constructor].
Qed.

Lemma confined_setBounds (p o : WinId) (r : Rectangle) :
  preserves (confined p o) (setBounds p r).
Proof.
  intros s. destruct (setBounds_frame p r s) as [Ht Hc].
  apply (confined_frame p o _ _ [CallSetBounds p r]); [assumption..|].
  repeat constructor.
Qed.

Lemma confined_show (p o : WinId) : preserves (confined p o) (show p).
Proof.
  intros s. destruct (show_frame p s) as [Ht Hc].
  apply (confined_frame p o _ _ [CallShow p]); [assumption..|]. repeat constructor.
Qed.

Lemma confined_executeJavaScript (p o : WinId) (src : Script) :
  preserves (confined p o) (executeJavaScript p src).
Proof.
  intros s. destruct (executeJavaScript_frame p src s) as [Ht Hc].
  apply (confined_frame p o _ _ [CallExecuteJavaScript p src]); [assumption..|].
  repeat constructor.
Qed.

Lemma confined_destroy (p o : WinId) : preserves (confined p o) destroy.
Proof.
  intros s. destruct (destroyed (this s)) eqn:Hd.
  - rewrite (destroy_again s Hd). reflexivity.
  - destruct (destroy_first s Hd) as (s' & E & Ht & _ & Hc & _). rewrite E. cbn [snd].
    intros [Hb Hp]. split.
    + unfold owns. rewrite Ht. cbn. auto.
    + exists (destroy_calls s). split; [assumption|]. unfold destroy_calls.
      apply Forall_app. split.
      * destruct Hp as [-> | ->]; [constructor|].
        destruct (gone s o); constructor; [now right|constructor].
      * destruct Hb as [-> | ->]; [constructor|].
        destruct (gone s p); [constructor|].
        destruct (inspected s p); repeat constructor.
Qed.

(** What is read from [this.browserWindow] is [p] or nothing. *)
Lemma confined_with_window (p o : WinId) {A} (f : option WinId -> M A) :
  preserves (confined p o) (f None) -> preserves (confined p o) (f (Some p)) ->
  preserves (confined p o) (bind (get browserWindow) f).
Proof.
  intros H0 H1 s Ho. rewrite (bind_return _ _ s s (browserWindow (this s))) by reflexivity.
  destruct (proj1 Ho) as [E|E]; rewrite E; [now apply H0|now apply H1].
Qed.

Lemma preserves_ret_bind (R : State -> State -> Prop) {A B} (a : A) (f : A -> M B) :
  preserves R (f a) -> preserves R (bind (ret a) f).
Proof. intros H s. apply H. Qed.

Lemma preserves_throw_bind (R : State -> State -> Prop) `{!Reflexive R} {A B}
    (e : Exception) (f : A -> M B) :
  preserves R (bind (throw e) f).
Proof. intros s. reflexivity. Qed.

Ltac confining :=
  repeat first
    [ progress cbv zeta
    | progress cbn beta iota
    | assumption
    | solve [eauto 2]
    | apply preserves_reads; [typeclasses eauto|solve [auto with reads]]
    | match goal with
      | |- preserves _ (bind (get browserWindow) _) => apply confined_with_window
      | |- preserves _ (bind (defined (Some _)) _) =>
          cbn [defined]; apply preserves_ret_bind
      | |- preserves _ (bind (defined None) _) =>
          cbn [defined]; apply preserves_throw_bind; typeclasses eauto
      | |- preserves _ (if ?b then _ else _) => destruct b
      | |- preserves _ (match ?x with _ => _ end) => destruct x
      | |- preserves _ (bind _ _) => apply preserves_bind; [typeclasses eauto| |intros ?]
      end ].

Lemma confined_setSize (p o : WinId) (rect : PartialRectangle) :
  preserves (confined p o) (setSize rect).
Proof. pose proof (confined_setBounds p o). unfold setSize. confining. Qed.

Lemma confined_updatePosition (p o : WinId) : preserves (confined p o) updatePosition.
Proof. pose proof (confined_setBounds p o). unfold updatePosition. confining. Qed.

Lemma confined_updatePreferredSize (p o : WinId) (size : PartialRectangle) :
  preserves (confined p o) (updatePreferredSize size).
Proof.
  pose proof (confined_latch p o). pose proof (confined_setSize p o).
  pose proof (confined_updatePosition p o). unfold updatePreferredSize. confining.
Qed.

Lemma confined_queryPreferredSize_start (p o : WinId) :
  preserves (confined p o) queryPreferredSize_start.
Proof.
  pose proof (confined_executeJavaScript p o). unfold queryPreferredSize_start.
  confining.
Qed.

Lemma confined_queryPreferredSize_resume (p o : WinId) (v : Settled) :
  preserves (confined p o) (queryPreferredSize_resume v).
Proof.
  pose proof (confined_setSize p o). pose proof (confined_updatePosition p o).
  unfold queryPreferredSize_resume. confining.
Qed.

Lemma confined_resume (p o : WinId) (t : Task) (v : Settled) :
  task_on p (Some t) -> preserves (confined p o) (resume t v).
Proof.
  pose proof (confined_setSize p o). pose proof (confined_destroy p o).
  pose proof (confined_show p o). pose proof (confined_executeJavaScript p o).
  pose proof (confined_queryPreferredSize_start p o).
  pose proof (confined_queryPreferredSize_resume p o).
  destruct t; cbn [task_on]; intros Ht;
    try (destruct Ht as [Ht|Ht]); subst;
    cbn [resume loadA_resume domReady_resume];
    unfold loadA_after_query, domReady_show; confining.
Qed.

Lemma confined_domReady_start (p o : WinId) :
  preserves (confined p o) domReady_start.
Proof.
  pose proof (confined_setSize p o). pose proof (confined_show p o).
  unfold domReady_start, domReady_show. confining.
Qed.

Lemma resume_task_on (p : WinId) (t : Task) (v : Settled) :
  task_on p (Some t) -> yields (task_on p) (resume t v).
Proof.
  destruct t; cbn [task_on]; intros Ht;
    cbn [resume loadA_resume domReady_resume];
    unfold loadA_after_query, domReady_show;
    repeat first
      [ progress cbv zeta
      | apply yields_ret; cbn; solve [auto]
      | match goal with
        | |- yields _ (if ?b then _ else _) => destruct b
        | |- yields _ (match ?x with _ => _ end) => destruct x
        | |- yields _ (bind _ _) => apply yields_bind; [exact I|intros ?]
        end ].
Qed.

Lemma domReady_start_task_on (p o : WinId) (s : State) :
  owns p o s -> task_on p (finished (fst (domReady_start s))).
Proof.
  intros [Hb _]. unfold domReady_start.
  rewrite (bind_return _ _ s s (browserWindow (this s))) by reflexivity.
  rewrite (bind_return _ _ s s (usingPreferredSize (this s))) by reflexivity.
  destruct (usingPreferredSize (this s)); cbn [negb].
  - unfold domReady_show, bind.
    destruct (defined (browserWindow (this s)) s) as [[w|e] s1]; [|exact I].
    now destruct (show w s1) as [[[]|e] s2].
  - unfold bind. destruct (setSize minimum s) as [[[]|e] s1]; [|exact I]. cbn.
    destruct Hb as [-> | ->]; auto.
Qed.

Lemma confined_step (p o : WinId) (e : Event) (sys : System) :
  popup sys = p -> owner sys = o ->
  owns p o (state sys) -> Forall (task_on p) (tasks sys) ->
  confined p o (state sys) (state (step e sys)) /\
  Forall (task_on p) (tasks (step e sys)).
Proof.
  intros Hp Ho Hown Ht.
  pose proof (confined_destroy p o) as D.
  assert (W : forall s w win win', windows s !! w = Some win ->
            (win_visible win' = true -> win_visible win = true) ->
            confined p o s (set_windows (<[w := win']> (windows s)) s)).
  { intros. now apply confined_same. }
  destruct e; cbn [step handle]; cbn [state tasks with_state with_tasks].
  - destruct (tasks sys !! i) as [[t|]|] eqn:Hi; [|split; [reflexivity|assumption]..].
    cbn [state tasks with_state with_tasks].
    assert (Hti : task_on p (Some t)).
    { rewrite Forall_forall in Ht. apply Ht. eapply list_elem_of_lookup_2. eassumption. }
    split; [now apply confined_resume|].
    apply Forall_insert; [assumption|]. now apply resume_task_on.
  - split; [apply confined_updatePreferredSize|assumption].
  - destruct (variant sys); [split; [reflexivity|assumption]|].
    cbn [state tasks with_state with_tasks].
    split; [apply confined_domReady_start|].
    apply Forall_app. split; [assumption|]. repeat constructor.
    now apply (domReady_start_task_on p o).
  - split; [|assumption].
    apply (preserves_set_devTools (confined p o) W).
  - split; [|assumption].
    etransitivity; [apply (preserves_set_devTools (confined p o) W)|].
    apply (preserves_maybeClose (confined p o) D).
  - split; [|assumption]. apply (preserves_maybeClose (confined p o) D).
  - split; [|assumption]. now apply confined_same.
  - split; [|assumption]. apply (preserves_close_window (confined p o) D W).
  - split; [|assumption]. apply (preserves_close_window (confined p o) D W).
  - destruct (decide (w = popup sys)); [split; [reflexivity|assumption]|].
    split; [|assumption]. apply (preserves_move_window (confined p o) W).
  - split; [|assumption]. apply D.
Qed.

Lemma confined_run (p o : WinId) (evs : list Event) (sys : System) :
  popup sys = p -> owner sys = o ->
  owns p o (state sys) -> Forall (task_on p) (tasks sys) ->
  confined p o (state sys) (state (run evs sys)).
Proof.
  revert sys. induction evs as [|e evs IH]; intros sys Hp Ho Hown Ht; [reflexivity|].
  change (run (e :: evs) sys) with (run evs (step e sys)).
  destruct (confined_step p o e sys Hp Ho Hown Ht) as [Hc Ht'].
  destruct (step_ids e sys) as (Hp' & Ho' & _).
  etransitivity; [exact Hc|].
  apply IH; [congruence|congruence|exact (proj1 (Hc Hown))|exact Ht'].
Qed.

Lemma confined_reachable (v : Variant) (opts : PopupViewOptions) (initial : Rectangle)
    (s0 : State) (sys : System) (evs : list Event) :
  new_PopupView v opts initial s0 = Some sys ->
  exists l,
    calls (state (run evs sys)) = calls s0 ++ l /\
    Forall (own_call (popup sys) (owner sys)) l.
Proof.
  intros Hnew.
  destruct (new_PopupView_constructed v opts initial s0 sys Hnew) as (pw & _ & _ & ->).
  cbn [popup owner].
  set (n := length (windows s0)).
  set (sys := mkSystem v n pw (constructed opts initial pw s0) [Some (loading v n)]).
  assert (Hown : owns n pw (state sys)) by (split; right; reflexivity).
  assert (Ht : Forall (task_on n) (tasks sys)).
  { repeat constructor. now destruct v. }
  destruct (confined_run n pw evs sys eq_refl eq_refl Hown Ht Hown) as (_ & l & Hl & Fl).
  exists (CallLoadURL n (opt_url opts) :: l). split.
  - rewrite Hl. cbn. now rewrite <- app_assoc.
  - constructor; [now left|exact Fl].
Qed.

Lemma page_run_cons (e : PageEvent) (evs : list PageEvent) (h : Hosted) :
  page_run (e :: evs) h = page_run evs (page_step e h).
Proof. reflexivity. Qed.

(** A 'new-window' request changes nothing of the popup; the store is asked
    once for each, in variant A, and never in variant B. *)
Lemma page_run_spec (evs : list PageEvent) (h : Hosted) :
  hosted (page_run evs h) = run (ordinary evs) (hosted h) /\
  requests (page_run evs h) =
    requests h ++ match variant (hosted h) with
                  | VariantA => asked evs
                  | VariantB => []
                  end.
Proof.
  revert h. induction evs as [|e evs IH]; intros h.
  - cbn. split; [reflexivity|]. destruct (variant (hosted h)); now rewrite app_nil_r.
  - rewrite page_run_cons. destruct (IH (page_step e h)) as [H1 H2].
    rewrite H1, H2. destruct e as [e|url]; cbn [page_step ordinary asked omap].
    + cbn [hosted requests]. split; [reflexivity|].
      now rewrite (proj2 (proj2 (step_ids e (hosted h)))).
    + destruct (variant (hosted h)) eqn:Hv; cbn [hosted requests].
      * split; [reflexivity|]. rewrite Hv. cbn. now rewrite <- app_assoc.
      * split; [reflexivity|]. now rewrite Hv.
Qed.

(** X11. From its construction on, whatever the events, a 'new-window'
    request of its page among them, every call the popup makes on a window
    or its page ([setBounds], [show], [closeDevTools], [destroy], [loadURL],
    [executeJavaScript], the removal of a 'closed' listener) is made on the
    window it created, but for the removal of its listener from its parent.
    The one other thing it reaches is the extension store: variant A asks it
    for a window, [store.newWindow({url})], once for each 'new-window'
    request and with the URL of the request, in their order; variant B
    never does. *)
Theorem calls_confined (v : Variant) (opts : PopupViewOptions) (initial : Rectangle)
    (s0 : State) (sys : System) (evs : list PageEvent) :
  new_PopupView v opts initial s0 = Some sys ->
  let h := page_run evs (mkHosted sys []) in
  (exists l,
     calls (state (hosted h)) = calls s0 ++ l /\
     Forall (own_call (popup sys) (owner sys)) l) /\
  requests h = match v with
               | VariantA => asked evs
               | VariantB => []
               end.
Proof.
  intros Hnew h.
  destruct (page_run_spec evs (mkHosted sys [])) as [H1 H2]. fold h in H1, H2.
  cbn [hosted requests] in H1, H2.
  split.
  - rewrite H1. now apply (confined_reachable v opts initial s0).
  - rewrite H2. cbn. now destruct (new_PopupView_spec _ _ _ _ _ Hnew) as (-> & _).
Qed.

(** ** With preferred sizes, no polling *)

(** X12. A popup that has received a preferred-size notification and is not
    destroyed is shown as soon as its content is there, without the delay
    and without a measurement: in variant A when the content check comes
    back with child nodes, in variant B on 'dom-ready'.  The one call made
    is [show()]; the bounds of the window are as they were. *)
Theorem latched_popup_shown_at_once (v : Variant) (opts : PopupViewOptions)
    (initial : Rectangle) (s0 : State) (sys : System) (evs : list Event) (e : Event) :
  new_PopupView v opts initial s0 = Some sys ->
  destroyed (this (state (run evs sys))) = false ->
  usingPreferredSize (this (state (run evs sys))) = true ->
  (e = DomReady /\ v = VariantB) \/
  (exists i c, e = Settle i (Fulfilled c) /\ truthy c = true /\
     tasks (run evs sys) !! i = Some (Some (LoadA_hasChildNodes (popup sys)))) ->
  let s := state (run evs sys) in
  let s' := state (step e (run evs sys)) in
  calls s' = calls s ++ [CallShow (popup sys)] /\
  visible_of s' (popup sys) = Some true /\
  bounds_of s' (popup sys) = bounds_of s (popup sys) /\
  this s' = this s.
Proof.
  intros Hnew Hd Hu He s s'.
  pose proof (reachable_sound v opts initial s0 sys evs Hnew) as [S1 _].
  destruct (S1 Hd) as (Hb & _ & Hl & _). fold s in Hb, Hl, Hd, Hu.
  destruct (live_window _ _ Hl) as (win & Hw & Hwd).
  pose proof (show_live _ _ _ Hw Hwd) as Hs.
  assert (Hlt : popup sys < length (windows s)) by (eapply lookup_lt_Some; eassumption).
  assert (E : s' = set_windows (<[popup sys := mkWindow false (win_bounds win) true
                                     (win_devTools win) (closedListeners win)]> (windows s))
                     (add_call (CallShow (popup sys)) s)).
  { unfold s'. destruct He as [[-> ->] | (i & c & -> & Hc & Ht)].
    - destruct (run_ids evs sys) as (_ & _ & Hv).
      destruct (new_PopupView_spec _ _ _ _ _ Hnew) as (Hv0 & _).
      unfold step. rewrite Hv, Hv0. cbn [state with_state with_tasks]. fold s.
      unfold domReady_start.
      rewrite (bind_return _ _ s s (Some (popup sys))) by (unfold get; now rewrite Hb).
      rewrite (bind_return _ _ s s true) by (unfold get; now rewrite Hu).
      cbn [negb]. unfold domReady_show. cbn [defined].
      erewrite bind_return by reflexivity.
      now rewrite (bind_return _ _ _ _ _ Hs).
    - rewrite (step_settle _ _ _ _ Ht). cbn [state with_state with_tasks]. fold s.
      cbn [resume loadA_resume awaited].
      erewrite bind_return by reflexivity. rewrite Hc. cbn [negb].
      rewrite (bind_return _ _ s s true) by (unfold get; now rewrite Hu).
      cbn [negb]. now rewrite (bind_return _ _ _ _ _ Hs). }
  rewrite E. unfold visible_of, bounds_of. cbn [calls windows this set_windows add_call].
  rewrite list_lookup_insert_eq by exact Hlt. rewrite Hw. cbn. auto.
Qed.

(** ** The popup on a screen, once more *)

Lemma window_held_while_alive_example :
  let s := state (run [PreferredSizeChanged (num 300) (num 200); ParentClosed] popupA) in
  (destroyed (this s) = false ->
     browserWindow (this s) = Some (popup popupA) /\ parent (this s) = Some (owner popupA) /\
     gone s (popup popupA) = false /\ 1 <= listeners s (popup popupA)) /\
  (destroyed (this s) = true ->
     browserWindow (this s) = None /\ parent (this s) = None /\
     gone s (popup popupA) = true).
Proof.
  apply (window_held_while_alive VariantA options fresh_bounds before popupA
           [PreferredSizeChanged (num 300) (num 200); ParentClosed]).
  reflexivity.
Defined.

Lemma handlers_never_throw_example :
  let s := state (run [DevToolsOpened; Closed] popupB) in
  fst (updatePreferredSize (Size (num 300) (num 200)) s) = Return tt /\
  fst (setSize minimum s) = Return tt /\
  fst (updatePosition s) = Return tt /\
  fst (maybeClose s) = Return tt /\
  fst (destroy s) = Return tt.
Proof.
  apply (handlers_never_throw VariantB options fresh_bounds before popupB
           [DevToolsOpened; Closed] (Size (num 300) (num 200)) minimum).
  reflexivity.
Defined.

(** The popup loses the focus to the main window. *)
Lemma triggers_tear_down_example :
  let s := state (run [Settle 1 (Fulfilled VUndefined);
                         PreferredSizeChanged (num 300) (num 200)]
                    (step Blur (run [DomReady] popupB))) in
  PopupView_isDestroyed s = (Return true, s) /\
  browserWindow (this s) = None /\ parent (this s) = None /\
  gone s (popup popupB) = true.
Proof.
  apply (triggers_tear_down VariantB options fresh_bounds before popupB [DomReady]
           [Settle 1 (Fulfilled VUndefined); PreferredSizeChanged (num 300) (num 200)]
           Blur).
  - reflexivity.
  - reflexivity.
  - split; [reflexivity|discriminate].
Defined.

Lemma handlers_silent_after_destroy_example :
  let s := state (run [Destroy] popupA) in
  let s' := state (step Blur (run [Destroy] popupA)) in
  calls s' = calls s /\
  (this s' = this s \/ this s' = set_usingPreferredSize true (this s)).
Proof.
  apply (handlers_silent_after_destroy VariantA options fresh_bounds before popupA
           [Destroy] Blur); reflexivity.
Defined.

Lemma construct_then_destroy_example :
  let n := length (windows before) in
  let s1 := exec (constructor VariantA options fresh_bounds) before in
  let s2 := exec destroy s1 in
  listeners s1 0 = S (listeners before 0) /\ listeners s1 n = 1 /\
  windows s2 = windows before ++ [mkWindow true fresh_bounds false false 0] /\
  focusedWindow s2 = focusedWindow before /\
  calls s2 = calls before ++ [CallLoadURL n (opt_url options); CallOffClosed 0;
                              CallOffClosed n; CallDestroy n].
Proof.
  apply (construct_then_destroy VariantA options fresh_bounds 0 before).
  - intros w H. injection H as <-. reflexivity.
  - reflexivity.
  - reflexivity.
Defined.

(** The popup is asked for when the main window has just been destroyed. *)
Lemma constructor_fails_before_creating_example :
  exists s1,
    constructor VariantA options fresh_bounds
      (set_windows [mkWindow true fresh_bounds false false 0] before)
    = (Throw ObjectDestroyed, s1) /\
    windows s1 = windows (set_windows [mkWindow true fresh_bounds false false 0] before) /\
    calls s1 = calls (set_windows [mkWindow true fresh_bounds false false 0] before) /\
    focusedWindow s1
    = focusedWindow (set_windows [mkWindow true fresh_bounds false false 0] before) /\
    new_PopupView VariantA options fresh_bounds
      (set_windows [mkWindow true fresh_bounds false false 0] before) = None.
Proof.
  apply (constructor_fails_before_creating VariantA options fresh_bounds
           (set_windows [mkWindow true fresh_bounds false false 0] before) 0);
    reflexivity.
Defined.

Lemma shown_at_most_once_example :
  shows (state (run [Settle 0 (Fulfilled VUndefined); Settle 0 (Fulfilled (VBool true));
                     PreferredSizeChanged (num 300) (num 200)] popupA))
    <= S (shows before) /\
  (tasks (run [Settle 0 (Fulfilled VUndefined); Settle 0 (Fulfilled (VBool true));
               PreferredSizeChanged (num 300) (num 200)] popupA) <> [None] ->
   shows (state (run [Settle 0 (Fulfilled VUndefined); Settle 0 (Fulfilled (VBool true));
                      PreferredSizeChanged (num 300) (num 200)] popupA))
   = shows before).
Proof.
  apply (shown_at_most_once options fresh_bounds before popupA
           [Settle 0 (Fulfilled VUndefined); Settle 0 (Fulfilled (VBool true));
            PreferredSizeChanged (num 300) (num 200)]).
  reflexivity.
Defined.

(** The content box of 900 by 10 is measured on the popup whose offset lies
    between the pixels: the popup is shown, 800 by 25, at (101, 70). *)
Lemma measurement_sizes_places_shows_example :
  let evs := [Settle 0 (Fulfilled VUndefined); Settle 0 (Fulfilled (VBool true));
              Settle 0 (Fulfilled VUndefined)] in
  let sys2 := step (Settle 0 (Fulfilled (VObject (Size (num 900) (num 10)))))
                (run evs popupS) in
  bounds_of (state sys2) 1 = Some (placed 101 70 800 25) /\
  visible_of (state sys2) 1 = Some true /\
  tasks sys2 !! 0 = Some None /\
  exists cur,
    bounds_of (state (run evs popupS)) 1 = Some cur /\
    calls (state sys2) =
      calls (state (run evs popupS)) ++
      [CallSetBounds 1 (with_size cur (num 800) (num 25));
       CallSetBounds 1 (placed 101 70 800 25);
       CallShow 1].
Proof.
  intros evs.
  apply (measurement_sizes_places_shows VariantA subpixel fresh_bounds before popupS
           evs 0 (LoadA_query 1) (Size (num 900) (num 10)) (placed 100 50 1024 768)).
  - reflexivity.
  - reflexivity.
  - reflexivity.
  - left. reflexivity.
  - reflexivity.
Defined.

(** The measurement of the popup fails. *)
Lemma rejected_evaluation_stays_hidden_example :
  let sys := run [Settle 0 (Fulfilled VUndefined); Settle 0 (Fulfilled (VBool true));
                  Settle 0 (Fulfilled VUndefined)] popupA in
  let sys1 := step (Settle 0 Rejected) sys in
  state sys1 = state sys /\
  forall post,
    tasks (run post sys1) = [None] /\
    quiet (state sys) (state (run post sys1)) /\
    shows (state (run post sys1)) = shows (state sys).
Proof.
  intros sys.
  apply (rejected_evaluation_stays_hidden sys (LoadA_query 1) 1);
    [reflexivity|reflexivity|right; reflexivity].
Defined.

(** The page of the popup opens two links; then the parent is closed. *)
Lemma calls_confined_example :
  let evs := [Ordinary (Settle 0 (Fulfilled VUndefined));
              NewWindow "https://a.example/";
              Ordinary (Settle 0 (Fulfilled (VBool true)));
              Ordinary (Moved 0 (placed 500 400 1024 768));
              NewWindow "https://b.example/";
              Ordinary ParentClosed] in
  let h := page_run evs (mkHosted popupA []) in
  (exists l,
     calls (state (hosted h)) = calls before ++ l /\
     Forall (own_call (popup popupA) (owner popupA)) l) /\
  requests h = asked evs.
Proof.
  intros evs.
  apply (calls_confined VariantA options fresh_bounds before popupA evs).
  reflexivity.
Defined.

(** Variant B: the notification comes first, then 'dom-ready'. *)
Lemma latched_popup_shown_at_once_example :
  let s := state (run [PreferredSizeChanged (num 300) (num 200)] popupB) in
  let s' := state (step DomReady (run [PreferredSizeChanged (num 300) (num 200)] popupB)) in
  calls s' = calls s ++ [CallShow (popup popupB)] /\
  visible_of s' (popup popupB) = Some true /\
  bounds_of s' (popup popupB) = bounds_of s (popup popupB) /\
  this s' = this s.
Proof.
  apply (latched_popup_shown_at_once VariantB options fresh_bounds before popupB
           [PreferredSizeChanged (num 300) (num 200)] DomReady).
  - reflexivity.
  - reflexivity.
  - reflexivity.
  - left. split; reflexivity.
Defined.
